(** * jsonrpcForCpp: the JSON-RPC 2.0 protocol engine, value codec, method
      registry, batch dispatcher and server session, embedded in Rocq.

    Each definition follows one function of the C++ sources under
    include/jsonrpc/ (errors.hpp, impl/types.ipp, impl/protocol.ipp,
    detail/type_converter.hpp, detail/method_wrapper.hpp,
    impl/method_registry.ipp, impl/server.ipp, impl/server_session.ipp,
    impl/client_session.ipp, impl/client.ipp):

    - C++ values become Rocq data; machine integers are [Z] with the
      casts written out (32-bit [int] and [unsigned], 64-bit [int64_t],
      [uint64_t] and [std::size_t]);
    - a function that may throw returns in the [exn] monad, which keeps
      apart what the handlers of the code keep apart: the library's
      [Error], other [std::exception]s, and everything else;
    - code that runs user procedures threads an abstract [World] holding
      whatever those procedures and the logger callback read and write;
    - the worker pool enters [invoke_batch] as the order in which the
      posted tasks run to completion, each task taken as one step, and
      thread creation is taken to succeed;
    - the network enters the client as a function from the HTTP request
      sent to what comes back: the body read, or the error of the step
      that failed;
    - Boost.JSON's text layer ([boost::json::parse],
      [boost::json::serialize]) is third-party code and enters as the
      interface [BoostJson]. *)

From Stdlib Require Import ZArith String Ascii List Lia SpecFloat DecimalString.
From stdpp Require Import base option list gmap strings sorting.

Set Warnings "-register-all".

Open Scope Z_scope.
Open Scope string_scope.
Open Scope list_scope.

(** ** Machine integers *)

Module MachineInt.

Definition int_min : Z := - 2 ^ 31.
Definition int_max : Z := 2 ^ 31 - 1.
Definition int64_min : Z := - 2 ^ 63.
Definition int64_max : Z := 2 ^ 63 - 1.
Definition uint64_max : Z := 2 ^ 64 - 1.
Definition size_max : Z := 2 ^ 64 - 1.

Definition in_int (z : Z) : Prop := int_min <= z <= int_max.
Definition in_size_t (z : Z) : Prop := 0 <= z <= size_max.

(** [static_cast<int>(x)] for a 64-bit [x]: reduction modulo 2^32 into
    the signed range. *)
Definition to_int (z : Z) : Z := (z + 2 ^ 31) mod 2 ^ 32 - 2 ^ 31.

(** [static_cast<unsigned>(x)] for a [std::size_t] [x]. *)
Definition to_unsigned (z : Z) : Z := z mod 2 ^ 32.

(** [std::to_string]: the decimal digits, with a leading [-] when
    negative. *)
Definition to_string (z : Z) : string := NilZero.string_of_int (Z.to_int z).

(** Arithmetic on [std::atomic<int64_t>] wraps modulo 2^64. *)
Definition to_int64 (z : Z) : Z := (z + 2 ^ 63) mod 2 ^ 64 - 2 ^ 63.

End MachineInt.

(** ** JSON values ([boost::json::value]) *)

Module Json.

(** IEEE binary64 / binary32 numbers, as Stdlib's [spec_float]. *)
Definition double := spec_float.
Definition double_of_Z (z : Z) : double := binary_normalize 53 1024 z 0 false.
Definition float_of_double (d : double) : spec_float :=
  match d with
  | S754_finite s m e => binary_normalize 24 128 (cond_Zopp s (Zpos m)) e s
  | _ => d
  end.

(** The eight kinds of [boost::json::value].  A JSON integer is of kind
    [int64] or [uint64]; a number written with a fraction or an exponent
    is of kind [double]. *)
Inductive value : Type :=
| JNull
| JBool (b : bool)
| JInt64 (i : Z)
| JUInt64 (u : Z)
| JDouble (d : double)
| JString (s : string)
| JArray (a : list value)
| JObject (o : list (string * value)).

(** [boost::json::object]: keys are unique and kept in insertion order. *)
Definition object := list (string * value).
Definition array := list value.

Definition is_null (v : value) : bool := match v with JNull => true | _ => false end.
Definition is_bool (v : value) : bool := match v with JBool _ => true | _ => false end.
Definition is_int64 (v : value) : bool := match v with JInt64 _ => true | _ => false end.
Definition is_uint64 (v : value) : bool := match v with JUInt64 _ => true | _ => false end.
Definition is_double (v : value) : bool := match v with JDouble _ => true | _ => false end.
Definition is_string (v : value) : bool := match v with JString _ => true | _ => false end.
Definition is_array (v : value) : bool := match v with JArray _ => true | _ => false end.
Definition is_object (v : value) : bool := match v with JObject _ => true | _ => false end.
Definition is_number (v : value) : bool := is_int64 v || is_uint64 v || is_double v.

(** [std::string(s.c_str())]: the copy stops at the first NUL byte. *)
Fixpoint c_str (s : string) : string :=
  match s with
  | EmptyString => EmptyString
  | String c rest =>
      if Ascii.eqb c "000"%char then EmptyString else String c (c_str rest)
  end.

(** [obj.find(key)]; [obj.contains(key)] is [find] returning [Some], and
    [obj.at(key)] is the value found. *)
Fixpoint find (key : string) (o : object) : option value :=
  match o with
  | [] => None
  | (k, v) :: rest => if String.eqb k key then Some v else find key rest
  end.

(** [obj[key] = v]: assign in place when the key exists, append otherwise. *)
Fixpoint set (key : string) (v : value) (o : object) : object :=
  match o with
  | [] => [(key, v)]
  | (k, v0) :: rest =>
      if String.eqb k key then (k, v) :: rest else (k, v0) :: set key v rest
  end.

End Json.

Import Json.

(** The text layer of Boost.JSON.  [parse] either yields a value or fails
    with the [what()] text of the exception it throws. *)
Class BoostJson := {
  parse : string -> value + string;
  serialize : value -> string
}.

(** ** Errors and exceptions (errors.hpp) *)

Module ErrorCode.

(** [enum class ErrorCode : int]; any [int] can be cast to it. *)
Definition t := Z.
Definition ParseError : t := -32700.
Definition InvalidRequest : t := -32600.
Definition MethodNotFound : t := -32601.
Definition InvalidParams : t := -32602.
Definition InternalError : t := -32603.
Definition ServerError : t := -32000.

End ErrorCode.

Module Error.

Record t := mk { code : ErrorCode.t; message : string; data : value }.

(** [Error(code, message)]: no attached data. *)
Definition make (c : ErrorCode.t) (msg : string) : t := mk c msg JNull.

Definition format_what (e : t) : string :=
  "JSON-RPC Error [" +:+ MachineInt.to_string (code e) +:+ "]: " +:+ message e.

Definition what (e : t) : string := format_what e.

Definition to_json (e : t) : object :=
  let obj := Json.set "code" (JInt64 (code e)) [] in
  let obj := Json.set "message" (JString (message e)) obj in
  if negb (is_null (data e)) then Json.set "data" (data e) obj else obj.

End Error.

(** What a C++ [throw] can carry here: the library's own [Error], another
    class derived from [std::exception] ([std::logic_error] kept apart),
    or an object of a type outside the [std::exception] hierarchy. *)
Inductive exception : Type :=
| JsonRpcError (e : Error.t)
| StdLogicError (what : string)
| StdException (what : string)
| ForeignException.

Inductive exn (A : Type) : Type :=
| Ok (a : A)
| Throw (x : exception).
Arguments Ok {A} a.
Arguments Throw {A} x.

Definition exn_bind {A B} (m : exn A) (k : A -> exn B) : exn B :=
  match m with
  | Ok a => k a
  | Throw x => Throw x
  end.

Notation "'let!' x ':=' m 'in' k" := (exn_bind m (fun x => k))
  (at level 10, x name, m at level 100, k at level 200).

Definition throw_error {A} (c : ErrorCode.t) (msg : string) : exn A :=
  Throw (JsonRpcError (Error.make c msg)).

Definition succeeds {A} (m : exn A) : Prop := exists a, m = Ok a.

(** The exception is an [Error] carrying the given code. *)
Definition fails_with {A} (c : ErrorCode.t) (m : exn A) : Prop :=
  exists e, m = Throw (JsonRpcError e) /\ Error.code e = c.

(** The state a moved-from [std::string] is left in.  The standard only
    says "valid but unspecified"; libstdc++, libc++ and the MSVC library
    all leave it empty. *)
Definition moved_from (s : string) : string := EmptyString.

(** A loop that pushes [f elem] for each element and lets the first
    exception escape. *)
Fixpoint exn_map {A B} (f : A -> exn B) (l : list A) : exn (list B) :=
  match l with
  | [] => Ok []
  | x :: rest =>
      let! y := f x in
      let! ys := exn_map f rest in
      Ok (y :: ys)
  end.

(** ** Request and Response (impl/types.ipp) *)

(** The check shared by [Request::from_json], [Response::from_json] and
    [Protocol::validate_version]: the field exists, is a string, and is
    "2.0". *)
Definition validate_version (obj : object) : bool :=
  match Json.find "jsonrpc" obj with
  | Some (JString version) => String.eqb version "2.0"
  | _ => false
  end.

Module Request.

Record t := mk {
  method : string;
  params : value;
  id : value;
  has_id : bool
}.

(** The three constructors; the fields are private, so every [Request]
    is built by one of them. *)
Definition default : t := mk EmptyString JNull JNull false.
Definition with_id (m : string) (p : value) (i : value) : t := mk m p i true.
Definition notification (m : string) (p : value) : t := mk m p JNull false.

Definition from_json (jv : value) : exn t :=
  match jv with
  | JObject obj =>
      if negb (validate_version obj) then
        throw_error ErrorCode.InvalidRequest "缺少或无效的 jsonrpc 版本字段"
      else
        match Json.find "method" obj with
        | Some (JString method_string) =>
            let m := c_str method_string in
            let! p :=
              match Json.find "params" obj with
              | Some p =>
                  if negb (is_array p) && negb (is_object p) && negb (is_null p)
                  then throw_error ErrorCode.InvalidRequest "params 必须是 array 或 object"
                  else Ok p
              | None => Ok JNull
              end in
            match Json.find "id" obj with
            | Some id_val =>
                if negb (is_string id_val) && negb (is_number id_val)
                   && negb (is_null id_val)
                then throw_error ErrorCode.InvalidRequest "id 必须是 string、number 或 null"
                else Ok (with_id m p id_val)
            | None => Ok (notification m p)
            end
        | _ => throw_error ErrorCode.InvalidRequest "缺少或无效的 method 字段"
        end
  | _ => throw_error ErrorCode.InvalidRequest "请求必须是 JSON 对象"
  end.

Definition to_json (r : t) : object :=
  let obj := Json.set "jsonrpc" (JString "2.0") [] in
  let obj := Json.set "method" (JString (method r)) obj in
  let obj := if negb (is_null (params r)) then Json.set "params" (params r) obj else obj in
  if has_id r then Json.set "id" (id r) obj else obj.

End Request.

Module Response.

Record t := mk {
  is_error : bool;
  result_ : value;
  error_ : Error.t;
  id : value
}.

(** [Response(result, id)]; the error slot holds a placeholder. *)
Definition success (result : value) (i : value) : t :=
  mk false result (Error.make ErrorCode.InternalError EmptyString) i.

(** [Response(error, id)]. *)
Definition failure (e : Error.t) (i : value) : t := mk true JNull e i.

Definition from_json (jv : value) : exn t :=
  match jv with
  | JObject obj =>
      if negb (validate_version obj) then
        throw_error ErrorCode.InvalidRequest "缺少或无效的 jsonrpc 版本字段"
      else
        match Json.find "id" obj with
        | None => throw_error ErrorCode.InvalidRequest "缺少 id 字段"
        | Some i =>
            match Json.find "result" obj, Json.find "error" obj with
            | Some _, Some _ =>
                throw_error ErrorCode.InvalidRequest "响应不能同时包含 result 和 error"
            | None, None =>
                throw_error ErrorCode.InvalidRequest "响应必须包含 result 或 error"
            | Some res, None => Ok (success res i)
            | None, Some (JObject err) =>
                match Json.find "code" err with
                | Some (JInt64 c) =>
                    match Json.find "message" err with
                    | Some (JString m) =>
                        let code := MachineInt.to_int c in
                        let message := c_str m in
                        (* Error error(code, std::move(message)); *)
                        let error := Error.make code message in
                        let message := moved_from message in
                        (* if (err.contains("data"))
                             error = Error(code, message, err.at("data")); *)
                        let error :=
                          match Json.find "data" err with
                          | Some d => Error.mk code message d
                          | None => error
                          end in
                        Ok (failure error i)
                    | _ => throw_error ErrorCode.InvalidRequest "error.message 缺失或无效"
                    end
                | _ => throw_error ErrorCode.InvalidRequest "error.code 缺失或无效"
                end
            | None, Some _ => throw_error ErrorCode.InvalidRequest "error 必须是对象"
            end
        end
  | _ => throw_error ErrorCode.InvalidRequest "响应必须是 JSON 对象"
  end.

Definition to_json (r : t) : object :=
  let obj := Json.set "jsonrpc" (JString "2.0") [] in
  let obj :=
    if is_error r then Json.set "error" (JObject (Error.to_json (error_ r))) obj
    else Json.set "result" (result_ r) obj in
  Json.set "id" (id r) obj.

End Response.

(** ** Protocol engine (detail/protocol.hpp, impl/protocol.ipp) *)

Module Protocol.

Section WithText.
Context `{BoostJson}.

Definition is_batch_request (jv : value) : bool := is_array jv.

(** [boost::json::parse] inside the [try] whose handler rethrows
    every [std::exception] as a [ParseError]. *)
Definition parse_text (json_str : string) : exn value :=
  match parse json_str with
  | inl jv => Ok jv
  | inr what => throw_error ErrorCode.ParseError ("JSON 解析失败: " +:+ what)
  end.

Definition parse_request (json_str : string) : exn (list Request.t) :=
  let! jv := parse_text json_str in
  if is_batch_request jv then
    match jv with
    | JArray [] => throw_error ErrorCode.InvalidRequest "批量请求不能为空"
    | JArray arr => exn_map Request.from_json arr
    | _ => Throw (StdException "not an array")  (* as_array(); not reached *)
    end
  else
    let! r := Request.from_json jv in
    Ok [r].

Definition serialize_response (response : Response.t) : string :=
  serialize (JObject (Response.to_json response)).

Definition serialize_batch_response (responses : list Response.t) : string :=
  serialize (JArray (map (fun r => JObject (Response.to_json r)) responses)).

Definition serialize_request (request : Request.t) : string :=
  serialize (JObject (Request.to_json request)).

Definition serialize_batch_request (requests : list Request.t) : string :=
  serialize (JArray (map (fun r => JObject (Request.to_json r)) requests)).

Definition parse_response (json_str : string) : exn Response.t :=
  let! jv := parse_text json_str in
  if negb (is_object jv) then
    throw_error ErrorCode.InvalidRequest "响应必须是 JSON 对象"
  else Response.from_json jv.

Definition parse_batch_response (json_str : string) : exn (list Response.t) :=
  let! jv := parse_text json_str in
  match jv with
  | JArray arr =>
      exn_map
        (fun elem =>
           if negb (is_object elem) then
             throw_error ErrorCode.InvalidRequest "响应数组中的元素必须是对象"
           else Response.from_json elem)
        arr
  | _ => throw_error ErrorCode.InvalidRequest "批量响应必须是 JSON 数组"
  end.

End WithText.

End Protocol.

(** ** Value codec and parameter extraction (detail/type_converter.hpp) *)

Module TypeConverter.

(** The C++ types that have a [json_converter] specialisation with a
    [from_json]. *)
Inductive ty : Type :=
| TInt                 (* int *)
| TInt64               (* int64_t *)
| TUInt64              (* uint64_t *)
| TDouble              (* double *)
| TFloat               (* float *)
| TBool                (* bool *)
| TString              (* std::string *)
| TVector (elem : ty)  (* std::vector<T> *)
| TMap (elem : ty).    (* std::map<std::string, T> *)

(** Native values of those types.  A [std::map] is kept as its entries
    in ascending key order. *)
Inductive cvalue : Type :=
| VInt (i : Z)
| VInt64 (i : Z)
| VUInt64 (u : Z)
| VDouble (d : double)
| VFloat (f : spec_float)
| VBool (b : bool)
| VString (s : string)
| VVector (l : list cvalue)
| VMap (m : list (string * cvalue)).

(** [result[key] = c] on a [std::map<std::string, T>]. *)
Fixpoint map_set (key : string) (c : cvalue) (m : list (string * cvalue))
  : list (string * cvalue) :=
  match m with
  | [] => [(key, c)]
  | (k, c0) :: rest =>
      if String.eqb k key then (k, c) :: rest
      else if String.ltb key k then (key, c) :: (k, c0) :: rest
      else (k, c0) :: map_set key c rest
  end.

(** The loop of [json_converter<std::map<std::string, T>>::from_json]:
    [result[key] = from_json(value)] for each member in turn. *)
Fixpoint decode_members (from_json : value -> exn cvalue) (obj : object)
    (result : list (string * cvalue)) : exn (list (string * cvalue)) :=
  match obj with
  | [] => Ok result
  | (key, v) :: rest =>
      let! c := from_json v in
      decode_members from_json rest (map_set key c result)
  end.

(** The loop of its [to_json]: [obj[key] = to_json(value)] for each
    entry in turn. *)
Fixpoint encode_members (to_json : cvalue -> value)
    (m : list (string * cvalue)) (obj : object) : object :=
  match m with
  | [] => obj
  | (k, c) :: rest => encode_members to_json rest (Json.set k (to_json c) obj)
  end.

Definition double_from_json (jv : value) : exn double :=
  match jv with
  | JDouble d => Ok d
  | JInt64 i => Ok (double_of_Z i)
  | JUInt64 u => Ok (double_of_Z u)
  | _ => throw_error ErrorCode.InvalidParams "期望 double 类型"
  end.

Fixpoint from_json (T : ty) (jv : value) : exn cvalue :=
  match T with
  | TInt =>
      match jv with
      | JInt64 i => Ok (VInt (MachineInt.to_int i))
      | _ => throw_error ErrorCode.InvalidParams "期望 int 类型"
      end
  | TInt64 =>
      match jv with
      | JInt64 i => Ok (VInt64 i)
      | _ => throw_error ErrorCode.InvalidParams "期望 int64 类型"
      end
  | TUInt64 =>
      match jv with
      | JUInt64 u => Ok (VUInt64 u)
      | _ => throw_error ErrorCode.InvalidParams "期望 uint64 类型"
      end
  | TDouble =>
      let! d := double_from_json jv in
      Ok (VDouble d)
  | TFloat =>
      let! d := double_from_json jv in
      Ok (VFloat (float_of_double d))
  | TBool =>
      match jv with
      | JBool b => Ok (VBool b)
      | _ => throw_error ErrorCode.InvalidParams "期望 bool 类型"
      end
  | TString =>
      match jv with
      | JString s => Ok (VString (c_str s))
      | _ => throw_error ErrorCode.InvalidParams "期望 string 类型"
      end
  | TVector E =>
      match jv with
      | JArray arr =>
          let! result := exn_map (from_json E) arr in
          Ok (VVector result)
      | _ => throw_error ErrorCode.InvalidParams "期望 array 类型"
      end
  | TMap E =>
      match jv with
      | JObject obj =>
          let! result := decode_members (from_json E) obj [] in
          Ok (VMap result)
      | _ => throw_error ErrorCode.InvalidParams "期望 object 类型"
      end
  end.

Fixpoint to_json (c : cvalue) : value :=
  match c with
  | VInt i => JInt64 i
  | VInt64 i => JInt64 i
  | VUInt64 u => JUInt64 u
  | VDouble d => JDouble d
  | VFloat f => JDouble f
  | VBool b => JBool b
  | VString s => JString s
  | VVector l => JArray (map to_json l)
  | VMap m => JObject (encode_members to_json m [])
  end.

(** [json_converter<void>::to_json()]. *)
Definition void_to_json : value := JNull.

(** The pack expansion [from_json(arr[Is])...]; both lists have the same
    length when it runs.  The elements are decoded left to right here
    (C++ leaves the order open; every failure is an [InvalidParams]). *)
Fixpoint decode_each (Ts : list ty) (arr : array) : exn (list cvalue) :=
  match Ts, arr with
  | T :: Ts', v :: arr' =>
      let! c := from_json T v in
      let! cs := decode_each Ts' arr' in
      Ok (c :: cs)
  | _, _ => Ok []
  end.

Definition extract_args_impl (Ts : list ty) (arr : array) : exn (list cvalue) :=
  let N := length Ts in
  if negb (Nat.eqb (length arr) N) then
    throw_error ErrorCode.InvalidParams
      ("参数数量不匹配：期望 " +:+ MachineInt.to_string (Z.of_nat N) +:+ " 个，实际 "
         +:+ MachineInt.to_string (Z.of_nat (length arr)) +:+ " 个")
  else decode_each Ts arr.

(** [extract_args<Args...>]; the empty pack selects the specialisation
    [extract_args<>]. *)
Definition extract_args (Ts : list ty) (params : value) : exn (list cvalue) :=
  match Ts with
  | [] =>
      if negb (is_null params) && negb (is_array params) then
        throw_error ErrorCode.InvalidParams "params 必须是 null 或 array"
      else
        match params with
        | JArray (_ :: _) => throw_error ErrorCode.InvalidParams "期望无参数，但提供了参数"
        | _ => Ok []
        end
  | _ =>
      match params with
      | JArray arr => extract_args_impl Ts arr
      | _ => throw_error ErrorCode.InvalidParams "params 必须是 array"
      end
  end.

End TypeConverter.

(** ** Method wrappers (detail/method_wrapper.hpp) *)

Module MethodWrapper.

Import TypeConverter.

Section WithWorld.

(** Everything a registered procedure can read or write. *)
Variable World : Type.

(** [MethodWrapperBase::invoke]: the uniform, type-erased entry point. *)
Definition MethodWrapperBase : Type := value -> World -> exn value * World.

(** A user callable seen through [function_traits]: its parameter types
    and its body.  The body returns [None] when the C++ return type is
    [void]. *)
Record Func := mkFunc {
  args_tuple : list ty;
  call_with_tuple : list cvalue -> World -> exn (option cvalue) * World
}.

Definition invoke_and_convert (r : option cvalue) : value :=
  match r with
  | Some result => to_json result
  | None => void_to_json
  end.

(** The handlers of [invoke_impl]:
      catch (const Error&) { throw; }
      catch (const std::exception& e) { throw Error(InternalError, ... + e.what()); } *)
Definition rethrow_wrapped {A} (m : exn A) : exn A :=
  match m with
  | Ok a => Ok a
  | Throw (JsonRpcError e) => Throw (JsonRpcError e)
  | Throw (StdLogicError what) | Throw (StdException what) =>
      throw_error ErrorCode.InternalError ("方法执行失败: " +:+ what)
  | Throw ForeignException => Throw ForeignException
  end.

(** [MethodWrapperImpl<Func>::invoke]. *)
Definition MethodWrapperImpl (func_ : Func) : MethodWrapperBase :=
  fun params w =>
    match extract_args (args_tuple func_) params with
    | Ok args =>
        let '(r, w') := call_with_tuple func_ args w in
        (rethrow_wrapped (let! r := r in Ok (invoke_and_convert r)), w')
    | Throw x => (rethrow_wrapped (Throw x), w)
    end.

End WithWorld.

End MethodWrapper.

(** ** Method registry and batch dispatcher (impl/method_registry.ipp) *)

Module MethodRegistry.

Import MethodWrapper.

(** A [boost::asio::thread_pool], identified by the thread count it was
    constructed with. *)
Record thread_pool := mkPool { num_threads : Z }.

(** The calls made on thread pools, oldest first. *)
Inductive pool_event : Type :=
| PoolSpawn (p : thread_pool)
| PoolStop (p : thread_pool)
| PoolJoin (p : thread_pool).

(** [struct IndexedResponse { std::size_t index; Response response; }]. *)
Definition IndexedResponse : Type := nat * Response.t.

(** The order [std::sort] is called with, [a.index < b.index], read as
    "not after".  The indices in one batch are distinct, so every sort
    for this order returns the same list. *)
Definition by_index : relation IndexedResponse := fun a b => (a.1 <= b.1)%nat.

#[export] Instance by_index_dec a b : Decision (by_index a b).
Proof. unfold by_index. apply _. Defined.

Section WithWorld.

Variable World : Type.

(** The fields of the class (the two mutexes left out), and with them
    [pool_events]: the calls the registry has made on thread pools so
    far. *)
Record t := mk {
  methods_ : gmap string (MethodWrapperBase World);
  batch_thread_count_ : Z;
  batch_pool_ : option thread_pool;
  pool_events : list pool_event
}.

(** [thread_pool(static_cast<unsigned>(count))]. *)
Definition new_pool (count : Z) : thread_pool := mkPool (MachineInt.to_unsigned count).

(** The constructor; [hardware_concurrency] is what
    [std::thread::hardware_concurrency()] returns (an [unsigned]). *)
Definition create (hardware_concurrency : Z) : t :=
  let count := Z.max 2 hardware_concurrency in
  let pool := new_pool count in
  mk ∅ count (Some pool) [PoolSpawn pool].

(** [set_batch_concurrency(threads)], [threads] a [std::size_t]. *)
Definition set_batch_concurrency (threads : Z) (r : t) : t :=
  let threads := if Z.eqb threads 0 then 1 else threads in
  let events :=
    match batch_pool_ r with
    | Some old => pool_events r ++ [PoolStop old; PoolJoin old]
    | None => pool_events r
    end in
  let pool := new_pool threads in
  mk (methods_ r) threads (Some pool) (events ++ [PoolSpawn pool]).

(** [get_batch_pool()]: the pool, created first if the pointer is null. *)
Definition get_batch_pool (r : t) : thread_pool * t :=
  match batch_pool_ r with
  | Some pool => (pool, r)
  | None =>
      let pool := new_pool (batch_thread_count_ r) in
      (pool, mk (methods_ r) (batch_thread_count_ r) (Some pool)
                (pool_events r ++ [PoolSpawn pool]))
  end.

(** [methods_[name] = wrapper]: the last registration wins. *)
Definition register_method (name : string) (func : Func World) (r : t) : t :=
  mk (<[name := MethodWrapperImpl World func]> (methods_ r))
     (batch_thread_count_ r) (batch_pool_ r) (pool_events r).

(** [invoke(request)]: the [try] block first, then its two handlers. *)
Definition invoke (r : t) (request : Request.t) (w : World)
  : exn Response.t * World :=
  let method_name := Request.method request in
  let params := Request.params request in
  let id := Request.id request in
  let '(attempt, w') :=
    match methods_ r !! method_name with
    | None =>
        (throw_error ErrorCode.MethodNotFound ("方法不存在: " +:+ method_name), w)
    | Some wrapper =>
        let '(result, w') := wrapper params w in
        ((let! result := result in Ok (Response.success result id)), w')
    end in
  (match attempt with
   | Ok response => Ok response
   | Throw (JsonRpcError e) => Ok (Response.failure e id)
   | Throw (StdLogicError what) | Throw (StdException what) =>
       Ok (Response.failure
             (Error.make ErrorCode.InternalError ("内部错误: " +:+ what)) id)
   | Throw ForeignException => Throw ForeignException
   end, w').

(** The body of the task posted for position [idx]: what it appends to
    [indexed_responses], and the world it leaves.  The [catch (...)]
    answers for a request with an id and is silent for a notification. *)
Definition batch_task (r : t) (idx : nat) (request : Request.t) (w : World)
  : list IndexedResponse * World :=
  if Request.has_id request then
    match invoke r request w with
    | (Ok resp, w') => ([(idx, resp)], w')
    | (Throw _, w') =>
        ([(idx, Response.failure
                  (Error.make ErrorCode.InternalError "批量调用失败")
                  (Request.id request))], w')
    end
  else
    ([], (invoke r request w).2).

(** The pool runs the posted tasks in some order; [schedule] lists the
    task positions in the order in which they run to completion. *)
Fixpoint run_tasks (r : t) (requests : list Request.t) (schedule : list nat)
    (indexed_responses : list IndexedResponse) (w : World)
  : list IndexedResponse * World :=
  match schedule with
  | [] => (indexed_responses, w)
  | idx :: later =>
      match requests !! idx with
      | Some request =>
          let '(pushed, w') := batch_task r idx request w in
          run_tasks r requests later (indexed_responses ++ pushed) w'
      | None => run_tasks r requests later indexed_responses w
      end
  end.

(** [invoke_batch].  [None] stands for a call that never returns:
    [completion_future.wait()] is released by the last task, and a pool
    without threads runs none. *)
Definition invoke_batch (r : t) (requests : list Request.t)
    (schedule : list nat) (w : World)
  : option (list Response.t * World * t) :=
  match requests with
  | [] => Some ([], w, r)
  | _ =>
      let '(pool, r) := get_batch_pool r in
      if Z.eqb (num_threads pool) 0 then None
      else
        let '(indexed_responses, w') := run_tasks r requests schedule [] w in
        let sorted := merge_sort by_index indexed_responses in
        Some (map snd sorted, w', r)
  end.

End WithWorld.

End MethodRegistry.

(** ** Server facade (impl/server.ipp): the running flag and the
       pool-resize guard *)

Module Server.

Section WithWorld.

Variable World : Type.

Record t := mk {
  registry_ : MethodRegistry.t World;
  running_ : bool;
  acceptor_ready_ : bool
}.

(** [Server::Impl::Impl]: a fresh registry, not running, acceptor
    prepared. *)
Definition create (hardware_concurrency : Z) : t :=
  mk (MethodRegistry.create World hardware_concurrency) false true.

Definition is_running (s : t) : bool := running_ s.

(** [running_.compare_exchange_strong(expected = false, true)]. *)
Definition try_enter_running (s : t) : bool * t :=
  if running_ s then (false, s)
  else (true, mk (registry_ s) true (acceptor_ready_ s)).

Definition leave_running (s : t) : t :=
  mk (registry_ s) false (acceptor_ready_ s).

Definition prepare_acceptor (s : t) : t := mk (registry_ s) (running_ s) true.
Definition teardown_acceptor (s : t) : t := mk (registry_ s) (running_ s) false.

(** [start()] / [run()] up to the point where the reactor takes over. *)
Definition start (s : t) : exn unit * t :=
  let '(entered, s) := try_enter_running s in
  if negb entered then (Throw (StdLogicError "Server is already running"), s)
  else (Ok tt, prepare_acceptor s).

(** [stop()]: a no-op unless running. *)
Definition stop (s : t) : t :=
  if running_ s then teardown_acceptor (leave_running s) else s.

Definition register_method (name : string) (func : MethodWrapper.Func World)
    (s : t) : t :=
  mk (MethodRegistry.register_method World name func (registry_ s))
     (running_ s) (acceptor_ready_ s).

Definition set_batch_concurrency (threads : Z) (s : t) : exn unit * t :=
  if is_running s then
    (Throw (StdLogicError "服务器正在运行时无法调整批量线程池，请先 stop()"), s)
  else
    (Ok tt,
     mk (MethodRegistry.set_batch_concurrency World threads (registry_ s))
        (running_ s) (acceptor_ready_ s)).

End WithWorld.

End Server.

(** ** Server session (impl/server_session.ipp): one HTTP exchange *)

Module ServerSession.

Inductive verb : Type := get | head | post | put | delete_ | options | unknown.

Definition is_post (v : verb) : bool := match v with post => true | _ => false end.

Inductive status : Type :=
| ok | no_content | method_not_allowed | unsupported_media_type.

Definition status_code (s : status) : Z :=
  match s with
  | ok => 200
  | no_content => 204
  | method_not_allowed => 405
  | unsupported_media_type => 415
  end.

(** The parts of the Beast request the session reads.  [content_type]
    is the header value, empty when the header is absent. *)
Record request := mkRequest {
  method : verb;
  content_type : string;
  body : string;
  keep_alive : bool
}.

(** The parts of the Beast response the session sets. *)
Record response := mkResponse {
  result : status;
  res_content_type : string;
  res_body : string;
  res_keep_alive : bool
}.

(** [res_ = {}] followed by the three assignments.  A default-constructed
    HTTP/1.1 response is keep-alive. *)
Definition make_response (s : status) (ctype : string) (b : string) : response :=
  mkResponse s ctype b true.

(** [content_type.find("application/json") == npos]. *)
Definition lacks_json_content_type (ctype : string) : bool :=
  match String.index 0 "application/json" ctype with
  | None => true
  | Some _ => false
  end.

Section WithWorld.

Context `{BoostJson}.
Variable World : Type.

(** The session's own state: the optional logger callback. *)
Record t := mk { logger_ : option (string -> World -> World) }.

Definition log (sess : t) (message : string) (w : World) : World :=
  match logger_ sess with
  | Some logger => logger message w
  | None => w
  end.

(** How [process_request] ends: it hands a response to [do_write], or it
    never returns, or an exception leaves it. *)
Inductive outcome : Type :=
| Written (res : response) (w : World) (registry : MethodRegistry.t World)
| Blocked
| Escaped (x : exception) (w : World).

(** The [try] block: parse, then decide whether the body was a batch. *)
Definition parse_and_classify (request_body : string)
  : exn (list Request.t * bool) :=
  let! requests := Protocol.parse_request request_body in
  let! is_batch :=
    if (1 <? length requests)%nat then Ok true
    else
      match parse request_body with
      | inl jv => Ok (Protocol.is_batch_request jv)
      | inr what => Throw (StdException what)
      end in
  Ok (requests, is_batch).

Definition process_request (sess : t) (req_ : request) (schedule : list nat)
    (w : World) (registry_ : MethodRegistry.t World) : outcome :=
  if negb (is_post (method req_)) then
    let w := log sess "收到非 POST 请求" w in
    Written (make_response method_not_allowed "text/plain" "仅支持 POST 方法")
            w registry_
  else if lacks_json_content_type (content_type req_) then
    let w := log sess ("Content-Type 无效: " +:+ content_type req_) w in
    Written (make_response unsupported_media_type "text/plain"
                           "Content-Type 必须是 application/json")
            w registry_
  else
    let request_body := body req_ in
    match parse_and_classify request_body with
    | Throw (JsonRpcError e) =>
        let w := log sess ("解析请求失败: " +:+ Error.what e) w in
        let error_response := Response.failure e JNull in
        Written (make_response ok "application/json"
                               (Protocol.serialize_response error_response))
                w registry_
    | Throw x => Escaped x w
    | Ok (requests, is_batch) =>
        match MethodRegistry.invoke_batch World registry_ requests schedule w with
        | None => Blocked
        | Some (responses, w, registry_) =>
            let res :=
              if is_batch then
                make_response ok "application/json"
                              (Protocol.serialize_batch_response responses)
              else
                match responses with
                | first :: _ =>
                    make_response ok "application/json"
                                  (Protocol.serialize_response first)
                | [] => make_response no_content "application/json" EmptyString
                end in
            Written (mkResponse (result res) (res_content_type res) (res_body res)
                                (keep_alive req_))
                    w registry_
        end
    end.

End WithWorld.

Arguments Written {World} res w registry.
Arguments Blocked {World}.
Arguments Escaped {World} x w.

(** The response handed to [do_write] and the world left behind. *)
Definition written {World} (o : outcome World) : option (response * World) :=
  match o with
  | Written res w _ => Some (res, w)
  | _ => None
  end.

End ServerSession.

(** ** Client session (impl/client_session.ipp): one HTTP exchange seen
       from the client *)

Module ClientSession.

(** What comes of the synchronous exchange of [send_request_sync]
    (resolve, connect, write, read): the body of the HTTP response, or
    a [boost::system::system_error] with its [what()] text. *)
Inductive exchange : Type :=
| Received (response_body : string)
| NetworkError (what : string).

(** The step of [send_request_async] at which an error code came up. *)
Inductive stage : Type := Resolving | Connecting | Writing | Reading.

(** What comes of the asynchronous exchange: the body, or the message
    of the error code and the step that reported it. *)
Inductive async_exchange : Type :=
| AsyncReceived (response_body : string)
| AsyncFailed (at_stage : stage) (message : string).

(** The HTTP request both send functions build: HTTP/1.1, POST, target
    "/", content type [application/json], no [Connection] header. *)
Definition make_request (request_body : string) : ServerSession.request :=
  ServerSession.mkRequest ServerSession.post "application/json" request_body true.

(** The line each step logs when it fails: [do_connect], [do_write] and
    [do_read] log it first ... *)
Definition step_log (s : stage) (message : string) : string :=
  match s with
  | Resolving => "解析域名失败: " +:+ message
  | Connecting => "连接失败: " +:+ message
  | Writing => "写入请求失败: " +:+ message
  | Reading => "读取响应失败: " +:+ message
  end.

(** ... and the handler in [send_request_async] logs once more. *)
Definition handler_log (s : stage) (message : string) : string :=
  match s with
  | Resolving | Connecting => "连接失败: " +:+ message
  | Writing => "写入请求失败: " +:+ message
  | Reading => "读取响应失败: " +:+ message
  end.

Section WithWorld.

Context `{BoostJson}.
Variable World : Type.

(** The network and the peer behind it, for the two ways of sending. *)
Definition transport : Type := ServerSession.request -> World -> exchange * World.
Definition async_transport : Type :=
  ServerSession.request -> World -> async_exchange * World.

(** The session's own state: the optional logger callback. *)
Record t := mk { logger_ : option (string -> World -> World) }.

Definition log (sess : t) (message : string) (w : World) : World :=
  match logger_ sess with
  | Some logger => logger message w
  | None => w
  end.

Definition send_request_sync (sess : t) (net : transport) (request_body : string)
    (w : World) : exn string * World :=
  match net (make_request request_body) w with
  | (Received response_body, w) => (Ok response_body, w)
  | (NetworkError what, w) =>
      let w := log sess ("网络错误: " +:+ what) w in
      (throw_error ErrorCode.InternalError ("网络错误: " +:+ what), w)
  end.

(** The [try] around the parser in [call] and [call_batch]: an [Error]
    is logged and rethrown. *)
Definition log_and_rethrow {A} (sess : t) (prefix : string) (m : exn A) (w : World)
  : exn A * World :=
  match m with
  | Throw (JsonRpcError e) => (m, log sess (prefix +:+ Error.what e) w)
  | _ => (m, w)
  end.

Definition call (sess : t) (net : transport) (request : Request.t) (w : World)
  : exn Response.t * World :=
  let request_body := Protocol.serialize_request request in
  match send_request_sync sess net request_body w with
  | (Ok response_body, w) =>
      log_and_rethrow sess "解析响应失败: "
        (Protocol.parse_response response_body) w
  | (Throw x, w) => (Throw x, w)
  end.

Definition call_batch (sess : t) (net : transport) (requests : list Request.t)
    (w : World) : exn (list Response.t) * World :=
  let request_body := Protocol.serialize_batch_request requests in
  match send_request_sync sess net request_body w with
  | (Ok response_body, w) =>
      log_and_rethrow sess "解析批量响应失败: "
        (Protocol.parse_batch_response response_body) w
  | (Throw x, w) => (Throw x, w)
  end.

(** [async_call]; the completion handler is run where the event loop
    would run it.  [callback] is the user's, taken not to throw. *)
Definition async_call (sess : t) (net : async_transport) (request : Request.t)
    (callback : Response.t -> World -> World) (w : World) : exn unit * World :=
  let request_body := Protocol.serialize_request request in
  match net (make_request request_body) w with
  | (AsyncFailed at_stage message, w) =>
      let w := log sess (step_log at_stage message) w in
      let w := log sess (handler_log at_stage message) w in
      let error := Error.make ErrorCode.InternalError ("网络错误: " +:+ message) in
      let error_response := Response.failure error JNull in
      (Ok tt, callback error_response w)
  | (AsyncReceived response_body, w) =>
      match Protocol.parse_response response_body with
      | Ok response => (Ok tt, callback response w)
      | Throw (JsonRpcError e) =>
          let w := log sess ("解析响应失败: " +:+ Error.what e) w in
          let error_response := Response.failure e JNull in
          (Ok tt, callback error_response w)
      | Throw x => (Throw x, w)
      end
  end.

(** [notify]: the [catch (...)] swallows whatever the exchange throws. *)
Definition notify (sess : t) (net : transport) (request : Request.t) (w : World)
  : World :=
  let request_body := Protocol.serialize_request request in
  (send_request_sync sess net request_body w).2.

End WithWorld.

End ClientSession.

(** ** Client facade (impl/client.ipp) *)

Module Client.

Section WithWorld.

Context `{BoostJson}.
Variable World : Type.

(** The fields of [Client::Impl] that the calls read or write; host,
    port and timeout only select the network. *)
Record t := mk {
  next_id_ : Z;
  logger_ : option (string -> World -> World)
}.

(** [Client::Impl::Impl]. *)
Definition create : t := mk 1 None.

Definition set_logger (logger : option (string -> World -> World)) (c : t) : t :=
  mk (next_id_ c) logger.

Definition create_session (c : t) : ClientSession.t World :=
  ClientSession.mk World (logger_ c).

(** [generate_id]: [next_id_.fetch_add(1)]. *)
Definition generate_id (c : t) : value * t :=
  (JInt64 (next_id_ c), mk (MachineInt.to_int64 (next_id_ c + 1)) (logger_ c)).

(** The pack expansion that pushes [to_json(arg)] for each argument. *)
Definition pack_params (args : list TypeConverter.cvalue) : value :=
  JArray (map TypeConverter.to_json args).

(** [call<Result>(method, args...)]. *)
Definition call (Result : TypeConverter.ty) (method : string)
    (args : list TypeConverter.cvalue) (net : ClientSession.transport World)
    (c : t) (w : World) : exn TypeConverter.cvalue * t * World :=
  let '(id, c) := generate_id c in
  let params := pack_params args in
  let request := Request.with_id method params id in
  match ClientSession.call World (create_session c) net request w with
  | (Ok response, w) =>
      if Response.is_error response then
        (Throw (JsonRpcError (Response.error_ response)), c, w)
      else
        (TypeConverter.from_json Result (Response.result_ response), c, w)
  | (Throw x, w) => (Throw x, c, w)
  end.

(** [async_call(method, callback, args...)]. *)
Definition async_call (method : string) (callback : Response.t -> World -> World)
    (args : list TypeConverter.cvalue) (net : ClientSession.async_transport World)
    (c : t) (w : World) : exn unit * t * World :=
  let '(id, c) := generate_id c in
  let params := pack_params args in
  let request := Request.with_id method params id in
  let '(r, w) :=
    ClientSession.async_call World (create_session c) net request callback w in
  (r, c, w).

Definition call_batch (requests : list Request.t)
    (net : ClientSession.transport World) (c : t) (w : World)
  : exn (list Response.t) * World :=
  ClientSession.call_batch World (create_session c) net requests w.

(** [notify(method, args...)]. *)
Definition notify (method : string) (args : list TypeConverter.cvalue)
    (net : ClientSession.transport World) (c : t) (w : World) : World :=
  let params := pack_params args in
  let request := Request.notification method params in
  ClientSession.notify World (create_session c) net request w.

End WithWorld.

End Client.

(** ** A reference text codec

    An executable stand-in for [boost::json::parse] and
    [boost::json::serialize], used to run the engine on concrete wire
    text.  It follows RFC 8259 with Boost.JSON's defaults: compact output,
    at most 32 levels of nesting on input, an integer literal becomes
    [int64] when it fits, else [uint64] when it fits, else [double].  The
    theorems of this file hold for every [BoostJson] instance and do not
    depend on this one. *)

Module RefJson.

Definition dquote : ascii := "034"%char.
Definition backslash : ascii := "092"%char.
Definition str1 (c : ascii) : string := String c EmptyString.

(** Writes JSON text with ['] standing for the double quote. *)
Fixpoint wire (s : string) : string :=
  match s with
  | EmptyString => EmptyString
  | String c rest => String (if Ascii.eqb c "'"%char then dquote else c) (wire rest)
  end.

Definition hex_digit (n : N) : ascii :=
  ascii_of_N (if (n <? 10)%N then 48 + n else 87 + n)%N.

Definition escape_char (c : ascii) : string :=
  let n := N_of_ascii c in
  if Ascii.eqb c dquote then String backslash (str1 dquote)
  else if Ascii.eqb c backslash then String backslash (str1 backslash)
  else if (n =? 8)%N then String backslash "b"
  else if (n =? 12)%N then String backslash "f"
  else if (n =? 10)%N then String backslash "n"
  else if (n =? 13)%N then String backslash "r"
  else if (n =? 9)%N then String backslash "t"
  else if (n <? 32)%N then
    String backslash ("u00" +:+ String (hex_digit (n / 16)) (str1 (hex_digit (n mod 16))))
  else str1 c.

Fixpoint escape (s : string) : string :=
  match s with
  | EmptyString => EmptyString
  | String c rest => escape_char c +:+ escape rest
  end.

Definition serialize_string (s : string) : string :=
  String dquote (escape s +:+ str1 dquote).

(** [m * 2^e] with the factors of two moved out of a negative exponent. *)
Fixpoint reduce_binary (m : positive) (e : Z) : positive * Z :=
  match m with
  | xO m' => if (e <? 0)%Z then reduce_binary m' (e + 1)%Z else (m, e)
  | _ => (m, e)
  end.

(** A finite double is written with its exact decimal value. *)
Definition serialize_double (d : double) : string :=
  match d with
  | S754_zero s => if s then "-0E0" else "0E0"
  | S754_infinity s => if s then "-1e99999" else "1e99999"
  | S754_nan => "null"
  | S754_finite s m e =>
      let '(m, e) := reduce_binary m e in
      (if s then "-" else EmptyString) +:+
      (if (0 <=? e)%Z then MachineInt.to_string (Zpos m * 2 ^ e) +:+ "E0"
       else MachineInt.to_string (Zpos m * 5 ^ (- e)) +:+ "E" +:+ MachineInt.to_string e)
  end.

Fixpoint serialize (v : value) : string :=
  match v with
  | JNull => "null"
  | JBool b => if b then "true" else "false"
  | JInt64 i => MachineInt.to_string i
  | JUInt64 u => MachineInt.to_string u
  | JDouble d => serialize_double d
  | JString s => serialize_string s
  | JArray a =>
      "[" +:+
      (fix elements (l : list value) : string :=
         match l with
         | [] => EmptyString
         | [x] => serialize x
         | x :: rest => serialize x +:+ "," +:+ elements rest
         end) a +:+ "]"
  | JObject o =>
      "{" +:+
      (fix members (l : list (string * value)) : string :=
         match l with
         | [] => EmptyString
         | [(k, x)] => serialize_string k +:+ ":" +:+ serialize x
         | (k, x) :: rest =>
             serialize_string k +:+ ":" +:+ serialize x +:+ "," +:+ members rest
         end) o +:+ "}"
  end.

(** *** Reading *)

Definition is_ws (c : ascii) : bool :=
  let n := N_of_ascii c in
  (n =? 32)%N || (n =? 9)%N || (n =? 10)%N || (n =? 13)%N.

Fixpoint skip_ws (s : string) : string :=
  match s with
  | String c rest => if is_ws c then skip_ws rest else s
  | EmptyString => s
  end.

Fixpoint strip_prefix (p s : string) : option string :=
  match p, s with
  | EmptyString, _ => Some s
  | String a p', String b s' => if Ascii.eqb a b then strip_prefix p' s' else None
  | _, _ => None
  end.

Definition is_digit (c : ascii) : bool :=
  let n := N_of_ascii c in (48 <=? n)%N && (n <=? 57)%N.

Fixpoint take_digits (s : string) (acc : Z) (count : nat) : Z * nat * string :=
  match s with
  | String c rest =>
      if is_digit c then
        take_digits rest (10 * acc + (Z.of_N (N_of_ascii c) - 48))%Z (S count)
      else (acc, count, s)
  | EmptyString => (acc, count, s)
  end.

(** The double nearest to [M * 10^x] ([M > 0]), ties to even. *)
Definition decimal_to_double (neg : bool) (M x : Z) : double :=
  if (M =? 0)%Z then S754_zero neg
  else
    let x := Z.min 400 (Z.max x (- (400 + Z.log2 M))) in
    if (0 <=? x)%Z then
      binary_normalize 53 1024 (cond_Zopp neg (M * 10 ^ x)) 0 neg
    else
      let den := (10 ^ (- x))%Z in
      let s := (Z.log2 den + 66)%Z in
      let num := (M * 2 ^ s)%Z in
      let sticky := if (num mod den =? 0)%Z then 0%Z else 1%Z in
      binary_normalize 53 1024 (cond_Zopp neg (2 * (num / den) + sticky))
                       (- (s + 1)) neg.

Definition parse_number (s : string) : option (value * string) :=
  let '(neg, s) :=
    match s with
    | String "-"%char rest => (true, rest)
    | _ => (false, s)
    end in
  let leading_zero :=
    match s with String "0"%char _ => true | _ => false end in
  let '(int_part, int_count, s) := take_digits s 0%Z 0%nat in
  if Nat.eqb int_count 0 || (leading_zero && (1 <? int_count)%nat) then None
  else
    let frac :=
      match s with
      | String "."%char rest =>
          let '(m, count, rest') := take_digits rest int_part 0%nat in
          if Nat.eqb count 0 then None else Some (true, m, count, rest')
      | _ => Some (false, int_part, 0%nat, s)
      end in
    match frac with
    | None => None
    | Some (has_frac, mantissa, frac_count, s) =>
        let expo :=
          match s with
          | String c rest =>
              if Ascii.eqb c "e"%char || Ascii.eqb c "E"%char then
                let '(eneg, rest) :=
                  match rest with
                  | String "-"%char r => (true, r)
                  | String "+"%char r => (false, r)
                  | _ => (false, rest)
                  end in
                let '(e, count, rest') := take_digits rest 0%Z 0%nat in
                if Nat.eqb count 0 then None
                else Some (true, cond_Zopp eneg e, rest')
              else Some (false, 0%Z, s)
          | EmptyString => Some (false, 0%Z, s)
          end in
        match expo with
        | None => None
        | Some (has_exp, e, s) =>
            if has_frac || has_exp then
              Some (JDouble (decimal_to_double neg mantissa (e - Z.of_nat frac_count)), s)
            else
              let z := cond_Zopp neg mantissa in
              if (MachineInt.int64_min <=? z)%Z && (z <=? MachineInt.int64_max)%Z
              then Some (JInt64 z, s)
              else if (0 <=? z)%Z && (z <=? MachineInt.uint64_max)%Z
              then Some (JUInt64 z, s)
              else Some (JDouble (decimal_to_double neg mantissa 0), s)
        end
    end.

Definition hex_value (c : ascii) : option N :=
  let n := N_of_ascii c in
  if (48 <=? n)%N && (n <=? 57)%N then Some (n - 48)%N
  else if (97 <=? n)%N && (n <=? 102)%N then Some (n - 87)%N
  else if (65 <=? n)%N && (n <=? 70)%N then Some (n - 55)%N
  else None.

Definition hex4 (a b c d : ascii) : option N :=
  match hex_value a, hex_value b, hex_value c, hex_value d with
  | Some x, Some y, Some z, Some w => Some (((x * 16 + y) * 16 + z) * 16 + w)%N
  | _, _, _, _ => None
  end.

Definition utf8 (cp : N) : string :=
  let byte n := ascii_of_N n in
  if (cp <? 128)%N then str1 (byte cp)
  else if (cp <? 2048)%N then
    String (byte (192 + cp / 64)%N) (str1 (byte (128 + cp mod 64)%N))
  else if (cp <? 65536)%N then
    String (byte (224 + cp / 4096)%N)
      (String (byte (128 + (cp / 64) mod 64)%N) (str1 (byte (128 + cp mod 64)%N)))
  else
    String (byte (240 + cp / 262144)%N)
      (String (byte (128 + (cp / 4096) mod 64)%N)
         (String (byte (128 + (cp / 64) mod 64)%N) (str1 (byte (128 + cp mod 64)%N)))).

(** The characters after an opening quote, up to the closing one. *)
Fixpoint parse_string_body (s : string) : option (string * string) :=
  match s with
  | EmptyString => None
  | String c rest =>
      if Ascii.eqb c dquote then Some (EmptyString, rest)
      else if Ascii.eqb c backslash then
        match rest with
        | String "u"%char (String h1 (String h2 (String h3 (String h4 rest')))) =>
            match hex4 h1 h2 h3 h4 with
            | None => None
            | Some hi =>
                if (55296 <=? hi)%N && (hi <? 56320)%N then
                  match rest' with
                  | String b (String "u"%char
                      (String l1 (String l2 (String l3 (String l4 rest''))))) =>
                      match hex4 l1 l2 l3 l4 with
                      | Some lo =>
                          if Ascii.eqb b backslash && (56320 <=? lo)%N && (lo <? 57344)%N
                          then
                            match parse_string_body rest'' with
                            | Some (str, r) =>
                                Some (utf8 (65536 + (hi - 55296) * 1024 + (lo - 56320))
                                        +:+ str, r)
                            | None => None
                            end
                          else None
                      | None => None
                      end
                  | _ => None
                  end
                else if (56320 <=? hi)%N && (hi <? 57344)%N then None
                else
                  match parse_string_body rest' with
                  | Some (str, r) => Some (utf8 hi +:+ str, r)
                  | None => None
                  end
            end
        | String e rest' =>
            let plain :=
              if Ascii.eqb e dquote then Some dquote
              else if Ascii.eqb e backslash then Some backslash
              else if Ascii.eqb e "/"%char then Some "/"%char
              else if Ascii.eqb e "b"%char then Some "008"%char
              else if Ascii.eqb e "f"%char then Some "012"%char
              else if Ascii.eqb e "n"%char then Some "010"%char
              else if Ascii.eqb e "r"%char then Some "013"%char
              else if Ascii.eqb e "t"%char then Some "009"%char
              else None in
            match plain, parse_string_body rest' with
            | Some ch, Some (str, r) => Some (String ch str, r)
            | _, _ => None
            end
        | EmptyString => None
        end
      else if (N_of_ascii c <? 32)%N then None
      else
        match parse_string_body rest with
        | Some (str, r) => Some (String c str, r)
        | None => None
        end
  end.

Fixpoint parse_value (fuel depth : nat) (s : string) : option (value * string) :=
  match fuel with
  | O => None
  | S fuel =>
      match skip_ws s with
      | EmptyString => None
      | String c rest as s =>
          if Ascii.eqb c "["%char then
            match depth with
            | O => None
            | S depth =>
                match skip_ws rest with
                | String "]"%char r => Some (JArray [], r)
                | _ => parse_elements fuel depth rest []
                end
            end
          else if Ascii.eqb c "{"%char then
            match depth with
            | O => None
            | S depth =>
                match skip_ws rest with
                | String "}"%char r => Some (JObject [], r)
                | _ => parse_members fuel depth rest []
                end
            end
          else if Ascii.eqb c dquote then
            match parse_string_body rest with
            | Some (str, r) => Some (JString str, r)
            | None => None
            end
          else if Ascii.eqb c "n"%char then
            option_map (fun r => (JNull, r)) (strip_prefix "null" s)
          else if Ascii.eqb c "t"%char then
            option_map (fun r => (JBool true, r)) (strip_prefix "true" s)
          else if Ascii.eqb c "f"%char then
            option_map (fun r => (JBool false, r)) (strip_prefix "false" s)
          else parse_number s
      end
  end
with parse_elements (fuel depth : nat) (s : string) (acc : list value)
  : option (value * string) :=
  match fuel with
  | O => None
  | S fuel =>
      match parse_value fuel depth s with
      | Some (v, rest) =>
          match skip_ws rest with
          | String c r =>
              if Ascii.eqb c ","%char then parse_elements fuel depth r (acc ++ [v])
              else if Ascii.eqb c "]"%char then Some (JArray (acc ++ [v]), r)
              else None
          | EmptyString => None
          end
      | None => None
      end
  end
with parse_members (fuel depth : nat) (s : string) (acc : object)
  : option (value * string) :=
  match fuel with
  | O => None
  | S fuel =>
      match skip_ws s with
      | String q rest =>
          if Ascii.eqb q dquote then
            match parse_string_body rest with
            | Some (key, rest) =>
                match skip_ws rest with
                | String ":"%char rest =>
                    match parse_value fuel depth rest with
                    | Some (v, rest) =>
                        match skip_ws rest with
                        | String c r =>
                            if Ascii.eqb c ","%char then
                              parse_members fuel depth r (Json.set key v acc)
                            else if Ascii.eqb c "}"%char then
                              Some (JObject (Json.set key v acc), r)
                            else None
                        | EmptyString => None
                        end
                    | None => None
                    end
                | _ => None
                end
            | None => None
            end
          else None
      | EmptyString => None
      end
  end.

Definition max_depth : nat := 32.

Definition parse (s : string) : value + string :=
  match parse_value (2 * String.length s + 2) max_depth s with
  | Some (v, rest) =>
      match skip_ws rest with
      | EmptyString => inl v
      | _ => inr "extra data"
      end
  | None => inr "syntax error"
  end.

End RefJson.

#[export] Instance ref_json : BoostJson :=
  {| parse := RefJson.parse; serialize := RefJson.serialize |}.

(** * Vocabulary of the statements *)

(** ** Envelope rules *)

(** The envelope rules, one constructor per way of breaking them.
    [id_ok] says which [id] values are acceptable. *)
Inductive envelope_violation (id_ok : value -> bool) (obj : object) : Prop :=
| missing_jsonrpc :
    Json.find "jsonrpc" obj = None -> envelope_violation id_ok obj
| wrong_jsonrpc v :
    Json.find "jsonrpc" obj = Some v -> v <> JString "2.0" ->
    envelope_violation id_ok obj
| missing_method :
    Json.find "method" obj = None -> envelope_violation id_ok obj
| method_not_string v :
    Json.find "method" obj = Some v -> is_string v = false ->
    envelope_violation id_ok obj
| bad_params p :
    Json.find "params" obj = Some p ->
    is_null p = false -> is_array p = false -> is_object p = false ->
    envelope_violation id_ok obj
| bad_id i :
    Json.find "id" obj = Some i -> id_ok i = false ->
    envelope_violation id_ok obj.

(** "null, string, or integer". *)
Definition integer_id_ok (i : value) : bool :=
  is_null i || is_string i || is_int64 i || is_uint64 i.

(** "null, string, or number": what [Request::from_json] tests. *)
Definition number_id_ok (i : value) : bool :=
  is_null i || is_string i || is_number i.

(** A top-level value some request object of which breaks the rules:
    the object itself, or an element of the batch. *)
Definition envelope_violated (id_ok : value -> bool) (jv : value) : Prop :=
  match jv with
  | JObject obj => envelope_violation id_ok obj
  | JArray arr =>
      exists obj, In (JObject obj) arr /\ envelope_violation id_ok obj
  | _ => False
  end.

(** A request as the constructors build it, with a method name free of
    NUL bytes and [params] and [id] of the kinds the envelope allows. *)
Definition valid_request (r : Request.t) : Prop :=
  c_str (Request.method r) = Request.method r /\
  is_null (Request.params r) || is_array (Request.params r)
    || is_object (Request.params r) = true /\
  if Request.has_id r
  then is_null (Request.id r) || is_string (Request.id r)
         || is_number (Request.id r) = true
  else Request.id r = JNull.

(** ** Value codec *)

Definition invalid_params (x : exception) : Prop :=
  exists e, x = JsonRpcError e /\ Error.code e = ErrorCode.InvalidParams.

(** The three integer parameter types that have a converter. *)
Definition is_integer_type (T : TypeConverter.ty) : bool :=
  match T with
  | TypeConverter.TInt | TypeConverter.TInt64 | TypeConverter.TUInt64 => true
  | _ => false
  end.

(** The JSON kind an integer parameter type accepts. *)
Definition accepted_kind (T : TypeConverter.ty) (jv : value) : bool :=
  match T with
  | TypeConverter.TInt | TypeConverter.TInt64 => is_int64 jv
  | TypeConverter.TUInt64 => is_uint64 jv
  | _ => false
  end.

(** ** Batch dispatch *)

(** What the task of a request with an id leaves in
    [indexed_responses]: a response carrying the request's id, which is
    the one [invoke] returned in the world the task ran in, or the
    catch-all [InternalError] when [invoke] raised. *)
Definition task_response {World} (r : MethodRegistry.t World)
    (request : Request.t) (response : Response.t) : Prop :=
  Response.id response = Request.id request /\
  exists w,
    match (MethodRegistry.invoke World r request w).1 with
    | Ok resp => response = resp
    | Throw _ =>
        response =
          Response.failure (Error.make ErrorCode.InternalError "批量调用失败")
                           (Request.id request)
    end.

(** The worker count of the pool [invoke_batch] posts to. *)
Definition pool_size {World} (r : MethodRegistry.t World) : Z :=
  MethodRegistry.num_threads (MethodRegistry.get_batch_pool World r).1.

(** Position [i] holds a request with an id. *)
Definition has_id_at (requests : list Request.t) (i : nat) : Prop :=
  exists request, requests !! i = Some request /\ Request.has_id request = true.

#[export] Instance has_id_at_dec requests i : Decision (has_id_at requests i).
Proof.
  unfold has_id_at. destruct (requests !! i) as [request|].
  - destruct (Request.has_id request) eqn:E.
    + left. eauto.
    + right. intros (? & [= <-] & ?). congruence.
  - right. intros (? & [=] & _).
Defined.

#[export] Instance by_index_total : Total MethodRegistry.by_index.
Proof. intros a b. unfold MethodRegistry.by_index. lia. Qed.

(** ** Server session *)

(** A request that reaches the protocol engine: POST, JSON content type. *)
Definition reaches_engine (req : ServerSession.request) : Prop :=
  ServerSession.method req = ServerSession.post /\
  ServerSession.lacks_json_content_type (ServerSession.content_type req) = false.

(** ** Protocol engine *)

(** A JSON value [Request::from_json] accepts: an object that breaks none
    of the envelope rules. *)
Definition acceptable_request (jv : value) : Prop :=
  exists obj, jv = JObject obj /\ ~ envelope_violation number_id_ok obj.

(** The exception is an [Error] carrying the given code. *)
Definition error_with_code (c : ErrorCode.t) (x : exception) : Prop :=
  exists e, x = JsonRpcError e /\ Error.code e = c.

(** A response that survives the wire: a success, or an error without
    data whose code is an [int] and whose message has no NUL byte. *)
Definition plain_response (resp : Response.t) : Prop :=
  (exists result id, resp = Response.success result id) \/
  (exists e id, resp = Response.failure e id /\
                MachineInt.in_int (Error.code e) /\
                c_str (Error.message e) = Error.message e /\
                Error.data e = JNull).

(** ** Native values *)

(** [key_lt a b]: [a < b] on [std::string], the order of [std::map]. *)
Definition key_lt (a b : string) : Prop := String.ltb a b = true.

(** A native value that has the C++ type [T]: an [int] is in the range
    of [int], a [float] is a binary32 number, a [std::string] taken as a
    C string has no NUL byte, and a [std::map] holds its entries in
    strictly ascending key order. *)
Fixpoint has_type (T : TypeConverter.ty) (c : TypeConverter.cvalue) {struct T}
  : Prop :=
  match T, c with
  | TypeConverter.TInt, TypeConverter.VInt i => MachineInt.in_int i
  | TypeConverter.TInt64, TypeConverter.VInt64 _ => True
  | TypeConverter.TUInt64, TypeConverter.VUInt64 _ => True
  | TypeConverter.TDouble, TypeConverter.VDouble _ => True
  | TypeConverter.TFloat, TypeConverter.VFloat f => float_of_double f = f
  | TypeConverter.TBool, TypeConverter.VBool _ => True
  | TypeConverter.TString, TypeConverter.VString s => c_str s = s
  | TypeConverter.TVector E, TypeConverter.VVector l => Forall (has_type E) l
  | TypeConverter.TMap E, TypeConverter.VMap m =>
      StronglySorted key_lt (m.*1) /\ Forall (fun entry => has_type E entry.2) m
  | _, _ => False
  end.

(** ** Method registry *)

(** The registries a program can hold: built by the constructor and
    changed by [register_method] and [set_batch_concurrency] only (the
    fields are private).  [hardware_concurrency] is an [unsigned],
    [threads] a [std::size_t]. *)
Inductive constructed {World} : MethodRegistry.t World -> Prop :=
| constructed_create (hardware_concurrency : Z) :
    0 <= hardware_concurrency < 2 ^ 32 ->
    constructed (MethodRegistry.create World hardware_concurrency)
| constructed_register name func r :
    constructed r ->
    constructed (MethodRegistry.register_method World name func r)
| constructed_resize (threads : Z) r :
    MachineInt.in_size_t threads ->
    constructed r ->
    constructed (MethodRegistry.set_batch_concurrency World threads r).

(** The life of one thread pool that has been replaced. *)
Definition retired_pool (p : MethodRegistry.thread_pool)
  : list MethodRegistry.pool_event :=
  [MethodRegistry.PoolSpawn p; MethodRegistry.PoolStop p; MethodRegistry.PoolJoin p].

(** The world after the tasks of a batch have run in the order
    [schedule]: each task calls [invoke] once. *)
Definition world_after_tasks {World} (r : MethodRegistry.t World)
    (requests : list Request.t) (schedule : list nat) (w : World) : World :=
  foldl (fun w idx =>
           match requests !! idx with
           | Some request => (MethodRegistry.invoke World r request w).2
           | None => w
           end) w schedule.

(** ** Client and server together *)

(** A network that hands every request to a server session over
    [registry], whose pool completes the tasks in the order [schedule],
    and brings back the body of the response the session writes.  A
    session that never answers shows as a timeout of the read, one that
    dies as a reset connection. *)
Definition loopback {World} `{BoostJson} (sess : ServerSession.t World)
    (schedule : list nat) (registry : MethodRegistry.t World)
  : ClientSession.transport World :=
  fun req w =>
    match ServerSession.process_request World sess req schedule w registry with
    | ServerSession.Written res w' _ =>
        (ClientSession.Received (ServerSession.res_body res), w')
    | ServerSession.Blocked => (ClientSession.NetworkError "timed out", w)
    | ServerSession.Escaped _ w' =>
        (ClientSession.NetworkError "connection reset", w')
    end.

(** The request [Client::call] and [Client::async_call] build. *)
Definition call_request {World} (c : Client.t World) (method : string)
    (args : list TypeConverter.cvalue) : Request.t :=
  Request.with_id method (Client.pack_params args) (JInt64 (Client.next_id_ World c)).

(** The client after [n] calls of [generate_id]. *)
Definition after_ids {World} (n : nat) (c : Client.t World) : Client.t World :=
  Nat.iter n (fun c => (Client.generate_id World c).2) c.

(** The text layer gives this value back: [parse(serialize(jv)) == jv]. *)
Definition faithful_on `{BoostJson} (jv : value) : Prop :=
  parse (serialize jv) = inl jv.

(** * Concrete inputs *)

Import MethodWrapper MethodRegistry ServerSession.

(** A request whose [id] is the number 1.5. *)
Definition fractional_id_request : string :=
  RefJson.wire "{'jsonrpc':'2.0','method':'m','id':1.5}".

(** A batch whose second element has a numeric [method]. *)
Definition batch_with_numeric_method : string :=
  RefJson.wire "[{'jsonrpc':'2.0','method':'a','id':1},{'jsonrpc':'2.0','method':7}]".

(** A registry with one procedure, [boom], that throws an [int]. *)
Definition throws_an_int : Func unit :=
  mkFunc unit [] (fun _ w => (Throw ForeignException, w)).

Definition boom_registry : MethodRegistry.t unit :=
  register_method unit "boom" throws_an_int (create unit 4).

(** Two more procedures: one throws a protocol [Error], one a
    [std::runtime_error]. *)
Definition throws_an_error : Func unit :=
  mkFunc unit []
    (fun _ w => (Throw (JsonRpcError (Error.make ErrorCode.ServerError "busy")), w)).

Definition throws_runtime_error : Func unit :=
  mkFunc unit [] (fun _ w => (Throw (StdException "disk full"), w)).

Definition failing_registry : MethodRegistry.t unit :=
  register_method unit "runtime" throws_runtime_error
    (register_method unit "busy" throws_an_error (create unit 4)).

(** A registry over a world that counts executed procedure bodies;
    [echo] returns its [int] argument. *)
Definition echo : Func nat :=
  mkFunc nat [TypeConverter.TInt]
    (fun args count =>
       match args with
       | [x] => (Ok (Some x), S count)
       | _ => (Throw (StdLogicError "arity"), S count)
       end).

Definition echo_registry : MethodRegistry.t nat :=
  register_method nat "echo" echo (create nat 4).

(** Two calls around a notification. *)
Definition echo_batch : list Request.t :=
  [Request.with_id "echo" (JArray [JInt64 5]) (JInt64 10);
   Request.notification "echo" (JArray [JInt64 7]);
   Request.with_id "echo" (JArray [JInt64 9]) (JInt64 11)].

(** A server over the same world, fresh from its constructor. *)
Definition fresh_server : Server.t nat := Server.create nat 4.

(** The same server after [start()]. *)
Definition started_server : Server.t nat := (Server.start nat fresh_server).2.

(** A session without a logger. *)
Definition quiet_session : ServerSession.t nat := ServerSession.mk nat None.

Definition json_post (text : string) (keep : bool) : request :=
  mkRequest post "application/json" (RefJson.wire text) keep.

(** One notification. *)
Definition notification_post : request :=
  json_post "{'jsonrpc':'2.0','method':'echo','params':[7]}" false.

(** A batch of two notifications. *)
Definition notification_batch_post : request :=
  json_post
    "[{'jsonrpc':'2.0','method':'echo','params':[7]},{'jsonrpc':'2.0','method':'echo','params':[8]}]"
    true.

(** A batch whose middle element has no [method]. *)
Definition broken_batch_post : request :=
  json_post
    "[{'jsonrpc':'2.0','method':'echo','params':[1],'id':1},{'jsonrpc':'2.0','params':[2],'id':2},{'jsonrpc':'2.0','method':'echo','params':[3],'id':3}]"
    true.

(** An error response that carries data. *)
Definition error_with_data : Response.t :=
  Response.failure
    (Error.mk ErrorCode.InvalidParams "bad argument" (JString "x")) (JInt64 7).

(** A call of [add] with two arguments and a string id. *)
Definition add_request : Request.t :=
  Request.with_id "add" (JArray [JInt64 10; JInt64 20]) (JString "call-1").

(** An error response without data. *)
Definition method_not_found_response : Response.t :=
  Response.failure (Error.make ErrorCode.MethodNotFound "no such method") (JInt64 7).

(** A method name with an embedded NUL byte: [a], NUL, [b]. *)
Definition method_with_nul : string :=
  String "a"%char (String "000"%char (String "b"%char EmptyString)).

(** A call whose [id] member is an explicit null and which has no
    [params] member. *)
Definition null_id_object : object :=
  [("jsonrpc", JString "2.0"); ("method", JString "ping"); ("id", JNull)].

(** An error envelope whose code does not fit an [int]. *)
Definition wide_code_envelope : object :=
  [("jsonrpc", JString "2.0");
   ("error", JObject [("code", JInt64 4294967297); ("message", JString "wide")]);
   ("id", JInt64 3)].

(** A [std::map<std::string, std::vector<int>>] with two entries. *)
Definition scores : TypeConverter.cvalue :=
  TypeConverter.VMap
    [("alice", TypeConverter.VVector [TypeConverter.VInt 90; TypeConverter.VInt (-3)]);
     ("bob", TypeConverter.VVector [])].


(** A call of [echo] with the argument 5. *)
Definition echo_call : Request.t :=
  Request.with_id "echo" (JArray [JInt64 5]) (JInt64 10).

(** [echo_registry] after [set_batch_concurrency(0)]. *)
Definition resized_registry : MethodRegistry.t nat :=
  set_batch_concurrency nat 0 echo_registry.

(** A GET request carrying a valid call of [echo]. *)
Definition get_with_call : request :=
  mkRequest get "application/json"
    (RefJson.wire "{'jsonrpc':'2.0','method':'echo','params':[5],'id':10}") false.

(** A POST whose body is cut short. *)
Definition truncated_post : request :=
  json_post "{'jsonrpc':'2.0','method':'echo'" false.

(** A call of [echo] sent as a batch of one. *)
Definition single_batch_post : request :=
  json_post "[{'jsonrpc':'2.0','method':'echo','params':[5],'id':10}]" false.

(** A client fresh from its constructor, over the counting world. *)
Definition fresh_client : Client.t nat := Client.create nat.

(** The network that leads to a quiet session over [echo_registry]. *)
Definition echo_server (schedule : list nat) : ClientSession.transport nat :=
  loopback quiet_session schedule echo_registry.

(** * Properties *)

Arguments Request.from_json : simpl never.
Arguments Response.from_json : simpl never.

(** Closes a goal [Throw (JsonRpcError e) = Throw x -> exists e', ...]. *)
Ltac thrown_error :=
  let E := fresh in
  intros E; injection E as <-; eexists; split; reflexivity.

(** ** Envelope validation *)

Section Envelope.

Lemma validate_version_true obj :
  validate_version obj = true <-> Json.find "jsonrpc" obj = Some (JString "2.0").
Proof.
  unfold validate_version.
  destruct (Json.find "jsonrpc" obj) as [[]|]; split; try discriminate.
  - intros E. apply String.eqb_eq in E. now subst.
  - intros [= ->]. reflexivity.
Qed.

(** [Request::from_json] throws nothing but [InvalidRequest]. *)
Lemma request_from_json_throws jv x :
  Request.from_json jv = Throw x ->
  exists e, x = JsonRpcError e /\ Error.code e = ErrorCode.InvalidRequest.
Proof.
  unfold Request.from_json, throw_error.
  destruct jv as [| | | | | |a|obj]; try thrown_error.
  destruct (validate_version obj); simpl; [|thrown_error].
  destruct (Json.find "method" obj) as [[]|]; try thrown_error.
  destruct (Json.find "params" obj) as [p|]; simpl.
  - destruct (negb (is_array p) && negb (is_object p) && negb (is_null p));
      simpl; [thrown_error|].
    destruct (Json.find "id" obj) as [i|]; [|discriminate].
    destruct (negb (is_string i) && negb (is_number i) && negb (is_null i));
      [thrown_error|discriminate].
  - destruct (Json.find "id" obj) as [i|]; [|discriminate].
    destruct (negb (is_string i) && negb (is_number i) && negb (is_null i));
      [thrown_error|discriminate].
Qed.

Lemma request_from_json_rejects obj :
  envelope_violation number_id_ok obj ->
  forall r, Request.from_json (JObject obj) <> Ok r.
Proof.
  intros Hv r. unfold Request.from_json.
  destruct (validate_version obj) eqn:Hver; simpl; [|discriminate].
  apply validate_version_true in Hver.
  destruct Hv as [H|v H Hne|H|v H Hs|p H Hn Ha Ho|i H Hi];
    try congruence.
  - rewrite H. discriminate.
  - rewrite H. destruct v; simpl in Hs; discriminate.
  - destruct (Json.find "method" obj) as [[]|]; try discriminate.
    rewrite H, Hn, Ha, Ho. discriminate.
  - destruct (Json.find "method" obj) as [[]|]; try discriminate.
    destruct (Json.find "params" obj) as [p|]; simpl.
    + destruct (negb (is_array p) && negb (is_object p) && negb (is_null p));
        simpl; [discriminate|].
      rewrite H. unfold number_id_ok in Hi.
      destruct (is_string i), (is_number i), (is_null i);
        simpl in *; discriminate.
    + rewrite H. unfold number_id_ok in Hi.
      destruct (is_string i), (is_number i), (is_null i);
        simpl in *; discriminate.
Qed.

Lemma exn_map_throws {A B} (f : A -> exn B) (P : exception -> Prop) l x :
  (forall a y, f a = Throw y -> P y) ->
  exn_map f l = Throw x -> P x.
Proof.
  intros Hf. induction l as [|a l IH]; simpl; [discriminate|].
  destruct (f a) eqn:Ea; simpl.
  - destruct (exn_map f l); simpl; [discriminate|].
    intros [= <-]. now apply IH.
  - intros [= <-]. eauto.
Qed.

Lemma exn_map_ok_inv {A B} (f : A -> exn B) l ys a :
  exn_map f l = Ok ys -> In a l -> exists y, f a = Ok y.
Proof.
  revert ys. induction l as [|b l IH]; simpl; intros ys Hok Hin; [easy|].
  destruct (f b) eqn:Eb; simpl in Hok; [|discriminate].
  destruct (exn_map f l) eqn:El; simpl in Hok; [|discriminate].
  destruct Hin as [->|Hin]; eauto.
Qed.

(** The rules are exactly what [Request::from_json] enforces. *)
Lemma request_from_json_accepts obj :
  ~ envelope_violation number_id_ok obj ->
  exists r, Request.from_json (JObject obj) = Ok r.
Proof.
  intros Hno. unfold Request.from_json.
  destruct (validate_version obj) eqn:Hver; simpl.
  2:{ exfalso. apply Hno.
      destruct (Json.find "jsonrpc" obj) as [v|] eqn:Hj;
        [|now apply missing_jsonrpc].
      apply (wrong_jsonrpc _ _ v Hj). intros ->.
      unfold validate_version in Hver. rewrite Hj in Hver. discriminate. }
  destruct (Json.find "method" obj) as [v|] eqn:Hm.
  2:{ exfalso. apply Hno. now apply missing_method. }
  destruct (is_string v) eqn:Hs.
  2:{ exfalso. apply Hno. now apply (method_not_string _ _ v). }
  destruct v; try discriminate.
  assert (Hp : exists p,
             (match Json.find "params" obj with
              | Some p =>
                  if negb (is_array p) && negb (is_object p) && negb (is_null p)
                  then throw_error ErrorCode.InvalidRequest "params 必须是 array 或 object"
                  else Ok p
              | None => Ok JNull
              end) = Ok p).
  { destruct (Json.find "params" obj) as [p|] eqn:Hp; [|eauto].
    destruct (is_array p) eqn:Ha, (is_object p) eqn:Ho, (is_null p) eqn:Hn;
      simpl; eauto.
    exfalso. apply Hno. now apply (bad_params _ _ p). }
  destruct Hp as [p ->]. simpl.
  destruct (Json.find "id" obj) as [i|] eqn:Hi; [|eauto].
  destruct (number_id_ok i) eqn:Hok.
  2:{ exfalso. apply Hno. now apply (bad_id _ _ i). }
  unfold number_id_ok in Hok.
  destruct (is_string i), (is_number i), (is_null i); simpl in *;
    try discriminate; eauto.
Qed.

End Envelope.

(** C1, as stated, fails: an [id] that is neither null, a string nor an
    integer is present, yet [parse_request] returns the request instead of
    failing with [InvalidRequest]. *)
Lemma parse_request_accepts_fractional_id :
  exists jv,
    parse fractional_id_request = inl jv /\
    envelope_violated integer_id_ok jv /\
    Protocol.parse_request fractional_id_request =
      Ok [Request.with_id "m" JNull (JDouble (S754_finite false 6755399441055744 (-52)))] /\
    ~ fails_with ErrorCode.InvalidRequest
        (Protocol.parse_request fractional_id_request).
Proof.
  eexists. split; [vm_compute; reflexivity|].
  split; [|split].
  - simpl. eapply bad_id; reflexivity.
  - vm_compute. reflexivity.
  - intros [e [He _]]. vm_compute in He. discriminate.
Qed.

(** C1 (amended): whenever the body parses as JSON and a request object in
    it - the top-level object, or an element of the batch - lacks
    [jsonrpc], has a [jsonrpc] other than "2.0", lacks [method], has a
    [method] that is not a string, has [params] that is neither null, an
    array nor an object, or has an [id] that is neither null, a string nor
    a number, [parse_request] fails with an [InvalidRequest] error. *)
Theorem parse_request_rejects_invalid_envelope `{BoostJson}
    (json_str : string) (jv : value) :
  parse json_str = inl jv ->
  envelope_violated number_id_ok jv ->
  fails_with ErrorCode.InvalidRequest (Protocol.parse_request json_str).
Proof.
  intros Hparse Hbad.
  unfold Protocol.parse_request, Protocol.parse_text. rewrite Hparse. simpl.
  destruct jv as [| | | | | |arr|obj]; simpl in Hbad; try contradiction.
  - destruct Hbad as (obj & Hin & Hv).
    destruct arr as [|elem arr]; [destruct Hin|].
    destruct (exn_map Request.from_json (elem :: arr)) as [rs|x] eqn:Hmap.
    + destruct (exn_map_ok_inv _ _ _ _ Hmap Hin) as [r Hr].
      now apply request_from_json_rejects in Hr.
    + apply (exn_map_throws _ (fun x => exists e, x = JsonRpcError e /\ Error.code e = ErrorCode.InvalidRequest)) in Hmap.
      * destruct Hmap as (e & -> & He). now exists e.
      * intros a y. apply request_from_json_throws.
  - simpl.
    destruct (Request.from_json (JObject obj)) as [r|x] eqn:Hr; simpl.
    + now apply request_from_json_rejects in Hr.
    + apply request_from_json_throws in Hr as (e & -> & He). now exists e.
Qed.

(** The rule at work on [batch_with_numeric_method]: the first element is
    well formed, the second breaks the batch. *)
Lemma parse_request_rejects_invalid_envelope_witness :
  fails_with ErrorCode.InvalidRequest
    (Protocol.parse_request batch_with_numeric_method).
Proof.
  eapply parse_request_rejects_invalid_envelope.
  - vm_compute. reflexivity.
  - simpl. eexists. split; [right; left; reflexivity|].
    eapply method_not_string; reflexivity.
Defined.

(** ** Value codec *)

Section Codec.

Import TypeConverter.

(** Every built-in converter fails with [InvalidParams] only. *)
Lemma from_json_throws T : forall jv x,
  from_json T jv = Throw x -> invalid_params x.
Proof.
  induction T as [| | | | | | |E IH|E IH]; intros jv x; simpl;
    try (destruct jv; simpl; try discriminate; thrown_error).
  - destruct jv; try thrown_error.
    destruct (exn_map (from_json E) a) eqn:Em; simpl; [discriminate|].
    intros [= <-]. eapply (exn_map_throws _ invalid_params); [|exact Em].
    intros v y. apply IH.
  - destruct jv; try thrown_error.
    destruct (decode_members (from_json E) o []) eqn:Em; simpl; [discriminate|].
    intros [= <-]. revert Em. generalize (@nil (string * cvalue)).
    induction o as [|[k v] o IHo]; intros acc; simpl; [discriminate|].
    destruct (from_json E v) eqn:Ev; simpl.
    + apply IHo.
    + intros [= <-]. eapply IH, Ev.
Qed.

Lemma to_int_in_range i : MachineInt.in_int i -> MachineInt.to_int i = i.
Proof.
  unfold MachineInt.in_int, MachineInt.int_min, MachineInt.int_max,
    MachineInt.to_int.
  intros Hi. rewrite Z.mod_small; lia.
Qed.

Lemma to_int_range i : MachineInt.in_int (MachineInt.to_int i).
Proof.
  unfold MachineInt.in_int, MachineInt.int_min, MachineInt.int_max,
    MachineInt.to_int.
  pose proof (Z.mod_pos_bound (i + 2 ^ 31) (2 ^ 32)). lia.
Qed.

(** C6, as stated, fails: 2^31 does not fit an [int], yet decoding it as
    [int] succeeds (with the value wrapped to -2^31) instead of failing
    with [InvalidParams]. *)
Lemma int_from_json_narrows_silently :
  ~ MachineInt.in_int 2147483648 /\
  from_json TInt (JInt64 2147483648) = Ok (VInt (-2147483648)) /\
  ~ fails_with ErrorCode.InvalidParams (from_json TInt (JInt64 2147483648)).
Proof.
  split; [|split].
  - unfold MachineInt.in_int, MachineInt.int_min, MachineInt.int_max. lia.
  - reflexivity.
  - intros (e & He & _). discriminate He.
Qed.

(** C6 (amended): decoding into [int], [int64_t] or [uint64_t] (the only
    integer types with a converter) succeeds exactly when the JSON value
    is of the matching kind - [int64] for the signed types, [uint64] for
    [uint64_t] - and fails with [InvalidParams] otherwise; a 64-bit value
    is kept as it is, an [int]-sized value decodes into [int] unchanged,
    and a JSON integer outside the [int] range is not refused: it is
    reduced modulo 2^32 into the [int] range. *)
Theorem integer_from_json_spec (T : ty) (jv : value) :
  (is_integer_type T = true ->
     (succeeds (from_json T jv) <-> accepted_kind T jv = true) /\
     (accepted_kind T jv = false ->
        fails_with ErrorCode.InvalidParams (from_json T jv))) /\
  (forall i, from_json TInt64 (JInt64 i) = Ok (VInt64 i)) /\
  (forall u, from_json TUInt64 (JUInt64 u) = Ok (VUInt64 u)) /\
  (forall i, from_json TInt (JInt64 i) = Ok (VInt (MachineInt.to_int i))) /\
  (forall i, MachineInt.in_int i -> from_json TInt (JInt64 i) = Ok (VInt i)) /\
  (forall i, MachineInt.in_int (MachineInt.to_int i) /\
             (MachineInt.to_int i - i) mod 2 ^ 32 = 0).
Proof.
  repeat apply conj; try reflexivity.
  - intros HT. destruct T; try discriminate; destruct jv; simpl;
      (split; [split; [intros [c Hc]; (reflexivity || discriminate)
                      |intros Hk; (discriminate || eexists; reflexivity)]
              |intros Hk; try discriminate;
               eexists; split; reflexivity]).
  - intros i Hi. change (Ok (VInt (MachineInt.to_int i)) = Ok (VInt i)).
    now rewrite to_int_in_range.
  - intros i. split; [apply to_int_range|].
    unfold MachineInt.to_int.
    replace ((i + 2 ^ 31) mod 2 ^ 32 - 2 ^ 31 - i)
      with ((i + 2 ^ 31) mod 2 ^ 32 - (i + 2 ^ 31)) by lia.
    rewrite Zminus_mod, Z.mod_mod by lia.
    rewrite Z.sub_diag. reflexivity.
Qed.

(** ** Parameter extraction *)




End Codec.

(** ** Single invocation *)

Section Invoke.

Import MethodWrapper MethodRegistry.

Variable World : Type.

Implicit Types (r : MethodRegistry.t World) (request : Request.t) (w : World).

(** [invoke] reads nothing of the registry but its method table. *)
Lemma invoke_methods_only r1 r2 request w :
  methods_ World r1 = methods_ World r2 ->
  invoke World r1 request w = invoke World r2 request w.
Proof. unfold invoke. now intros ->. Qed.

(** A response returned by [invoke] carries the request's id. *)
Lemma invoke_response_id r request w response :
  (invoke World r request w).1 = Ok response ->
  Response.id response = Request.id request.
Proof.
  unfold invoke.
  destruct (methods_ World r !! Request.method request) as [wrapper|].
  - destruct (wrapper (Request.params request) w) as [[result|[e|what|what|]] w'];
      simpl; intros [= <-]; reflexivity.
  - simpl. intros [= <-]. reflexivity.
Qed.

(** The only thing that leaves [invoke] is an exception from outside the
    [std::exception] hierarchy, raised by the wrapper. *)
Lemma invoke_throws r request w x :
  (invoke World r request w).1 = Throw x ->
  x = ForeignException /\
  exists wrapper,
    methods_ World r !! Request.method request = Some wrapper /\
    (wrapper (Request.params request) w).1 = Throw ForeignException.
Proof.
  unfold invoke.
  destruct (methods_ World r !! Request.method request) as [wrapper|].
  - destruct (wrapper (Request.params request) w) as [[result|[e|what|what|]] w']
      eqn:Hw; simpl; try discriminate.
    intros [= <-]. split; [reflexivity|].
    exists wrapper. now rewrite Hw.
  - simpl. discriminate.
Qed.

End Invoke.

(** C4, as stated, fails: a procedure may throw an object that is not a
    [std::exception]; neither handler of [invoke] catches it, so [invoke]
    raises instead of returning a response. *)
Lemma invoke_lets_foreign_exception_escape :
  (MethodRegistry.invoke unit boom_registry
     (Request.with_id "boom" (JArray []) (JInt64 1)) tt).1
  = Throw ForeignException.
Proof. vm_compute. reflexivity. Qed.

(** C4 (amended): for every request whose procedure throws nothing from
    outside the [std::exception] hierarchy, [invoke] returns a response
    whose id is the request's id; for an unregistered method it is the
    [MethodNotFound] error; a protocol [Error] thrown by the procedure is
    returned as it is; any other [std::exception] becomes an
    [InternalError] whose message is the original [what()] after the
    prefix "方法执行失败: ". *)
Theorem invoke_returns_response (World : Type)
    (r : MethodRegistry.t World) (request : Request.t) (w : World) :
  (forall wrapper,
     MethodRegistry.methods_ World r !! Request.method request = Some wrapper ->
     (wrapper (Request.params request) w).1 <> Throw ForeignException) ->
  exists response,
    (MethodRegistry.invoke World r request w).1 = Ok response /\
    Response.id response = Request.id request /\
    (MethodRegistry.methods_ World r !! Request.method request = None ->
       Response.is_error response = true /\
       Error.code (Response.error_ response) = ErrorCode.MethodNotFound) /\
    (forall func args x w',
       MethodRegistry.methods_ World r !! Request.method request
         = Some (MethodWrapper.MethodWrapperImpl World func) ->
       TypeConverter.extract_args (MethodWrapper.args_tuple World func)
         (Request.params request) = Ok args ->
       MethodWrapper.call_with_tuple World func args w = (Throw x, w') ->
       match x with
       | JsonRpcError e => response = Response.failure e (Request.id request)
       | StdLogicError what | StdException what =>
           response =
             Response.failure
               (Error.make ErrorCode.InternalError ("方法执行失败: " +:+ what))
               (Request.id request)
       | ForeignException => False
       end).
Proof.
  intros Hstd.
  destruct (MethodRegistry.invoke World r request w) as [[response|x] w1] eqn:Hinv.
  2:{ exfalso.
      assert (Hx : (MethodRegistry.invoke World r request w).1 = Throw x)
        by now rewrite Hinv.
      apply invoke_throws in Hx as (_ & wrapper & Hl & Hw).
      now apply (Hstd wrapper Hl). }
  exists response. simpl.
  assert (Hr : (MethodRegistry.invoke World r request w).1 = Ok response)
    by now rewrite Hinv.
  repeat apply conj; [reflexivity|now apply invoke_response_id in Hr| |].
  - intros Hnone. revert Hr.
    unfold MethodRegistry.invoke, MethodWrapperBase in *. cbv zeta.
    rewrite Hnone.
    simpl. intros [= <-]. split; reflexivity.
  - intros func args x w' Hl Hargs Hcall.
    specialize (Hstd _ Hl).
    revert Hr Hstd.
    unfold MethodRegistry.invoke, MethodWrapperBase in *. cbv zeta. rewrite Hl.
    unfold MethodWrapper.MethodWrapperImpl. rewrite Hargs, Hcall.
    destruct x; simpl; first [intros [= <-]; reflexivity | discriminate].
Qed.

(** A procedure that throws [std::runtime_error("disk full")]. *)
Lemma invoke_returns_response_witness :
  exists response,
    (MethodRegistry.invoke unit failing_registry
       (Request.with_id "runtime" JNull (JString "r1")) tt).1 = Ok response /\
    response =
      Response.failure
        (Error.make ErrorCode.InternalError ("方法执行失败: " +:+ "disk full"))
        (JString "r1").
Proof.
  destruct (invoke_returns_response unit failing_registry
              (Request.with_id "runtime" JNull (JString "r1")) tt)
    as (response & Hr & _ & _ & Hthrown).
  - intros wrapper Hl. vm_compute in Hl. injection Hl as <-.
    vm_compute. discriminate.
  - exists response. split; [exact Hr|].
    apply (Hthrown throws_runtime_error [] (StdException "disk full") tt);
      reflexivity.
Defined.

(** ** Batch dispatch *)

Section Batch.

Variable World : Type.

Implicit Types (r : MethodRegistry.t World) (requests : list Request.t).

Lemma get_batch_pool_methods r :
  methods_ World (get_batch_pool World r).2 = methods_ World r.
Proof. unfold get_batch_pool. now destruct (batch_pool_ World r). Qed.

Lemma batch_task_spec r idx request w :
  (Request.has_id request = true ->
   exists response,
     (batch_task World r idx request w).1 = [(idx, response)] /\
     task_response r request response) /\
  (Request.has_id request = false ->
   (batch_task World r idx request w).1 = []).
Proof.
  unfold batch_task, task_response. split; intros ->; [|reflexivity].
  destruct (invoke World r request w) as [[resp|x] w'] eqn:Hinv; simpl;
    eexists; (split; [reflexivity|]).
  - split.
    + eapply invoke_response_id. now rewrite Hinv.
    + exists w. now rewrite Hinv.
  - split; [reflexivity|]. exists w. now rewrite Hinv.
Qed.

(** What a run of the posted tasks appends, in completion order. *)
Lemma run_tasks_spec r requests schedule : forall acc w,
  exists out w',
    run_tasks World r requests schedule acc w = (acc ++ out, w') /\
    out.*1 = filter (has_id_at requests) schedule /\
    Forall (fun entry =>
              exists request,
                requests !! entry.1 = Some request /\
                task_response r request entry.2) out.
Proof.
  induction schedule as [|idx later IH]; intros acc w; simpl.
  - exists [], w. rewrite app_nil_r. repeat split; constructor.
  - destruct (requests !! idx) as [request|] eqn:Hreq.
    + destruct (batch_task World r idx request w) as [pushed w1] eqn:Htask.
      destruct (IH (acc ++ pushed) w1) as (out & w' & Hrun & Hidx & Hall).
      exists (pushed ++ out), w'. rewrite Hrun, <- app_assoc.
      split; [reflexivity|].
      pose proof (batch_task_spec r idx request w) as [Hyes Hno].
      rewrite Htask in Hyes, Hno. simpl in Hyes, Hno.
      destruct (Request.has_id request) eqn:Hid.
      * destruct (Hyes eq_refl) as (response & -> & Hresp).
        rewrite filter_cons_True by (exists request; auto).
        cbn [app]. rewrite fmap_cons, Hidx. split; [reflexivity|].
        constructor; [|exact Hall]. exists request. auto.
      * rewrite (Hno eq_refl). simpl.
        rewrite filter_cons_False; [auto|].
        intros (request' & Hreq' & Hid'). congruence.
    + destruct (IH acc w) as (out & w' & Hrun & Hidx & Hall).
      exists out, w'. split; [exact Hrun|]. split; [|exact Hall].
      rewrite filter_cons_False; [exact Hidx|].
      intros (request' & Hreq' & _). congruence.
Qed.

(** The positions of the requests with an id, ascending, line up with
    those requests in input order. *)
Lemma positions_with_id prefix requests :
  Forall2 (fun i request => (prefix ++ requests) !! i = Some request)
    (filter (has_id_at (prefix ++ requests))
            (seq (length prefix) (length requests)))
    (List.filter Request.has_id requests).
Proof.
  revert prefix. induction requests as [|request rest IH]; intros prefix.
  - constructor.
  - simpl length. simpl seq. simpl List.filter.
    assert (Hlookup : (prefix ++ request :: rest) !! length prefix = Some request)
      by (rewrite lookup_app_r, Nat.sub_diag by lia; reflexivity).
    specialize (IH (prefix ++ [request])).
    rewrite <- app_assoc, length_app in IH. simpl in IH.
    rewrite Nat.add_1_r in IH.
    destruct (Request.has_id request) eqn:Hid.
    + rewrite filter_cons_True by (exists request; auto).
      constructor; auto.
    + rewrite filter_cons_False; [exact IH|].
      intros (request' & Hreq' & Hid'). congruence.
Qed.

Lemma StronglySorted_seq j n : StronglySorted le (seq j n).
Proof.
  revert j. induction n as [|n IH]; intros j; simpl; constructor; [apply IH|].
  apply Forall_forall. intros k Hk. apply elem_of_seq in Hk. lia.
Qed.

Lemma StronglySorted_filter {A} (R : relation A) (P : A -> Prop)
    `{forall x, Decision (P x)} l :
  StronglySorted R l -> StronglySorted R (filter P l).
Proof.
  induction 1 as [|x l Hl IH Hx]; [constructor|].
  rewrite filter_cons. destruct (decide (P x)); [|exact IH].
  constructor; [exact IH|].
  apply Forall_forall. intros y Hy. apply list_elem_of_filter in Hy as [_ Hy].
  revert y Hy. now apply Forall_forall.
Qed.

(** Sorting by index puts the collected entries in input order. *)
Lemma sorted_indices requests schedule (out : list IndexedResponse) :
  schedule ≡ₚ seq 0 (length requests) ->
  out.*1 = filter (has_id_at requests) schedule ->
  (merge_sort by_index out).*1
  = filter (has_id_at requests) (seq 0 (length requests)).
Proof.
  intros Hperm Hout.
  apply (StronglySorted_unique le).
  - apply Sorted_StronglySorted; [apply _|].
    apply (Sorted_fmap fst by_index le); [auto|].
    apply Sorted_merge_sort. apply _.
  - apply StronglySorted_filter, StronglySorted_seq.
  - rewrite merge_sort_Permutation, Hout. now rewrite Hperm.
Qed.

Lemma responses_in_order r requests (sorted : list IndexedResponse) expected :
  Forall (fun entry =>
            exists request,
              requests !! entry.1 = Some request /\
              task_response r request entry.2) sorted ->
  Forall2 (fun i request => requests !! i = Some request) (sorted.*1) expected ->
  Forall2 (task_response r) expected (sorted.*2).
Proof.
  intros Hall. revert expected.
  induction Hall as [|[i response] sorted (request & Hreq & Hresp) _ IH];
    intros expected Hexp; simpl in *.
  - inversion Hexp. constructor.
  - inversion Hexp as [|? request' ? expected' Hreq' Hrest]; subst.
    constructor; [|now apply IH].
    rewrite Hreq in Hreq'. now injection Hreq' as <-.
Qed.

(** C3: for every list of requests, every pool of at least one worker
    and every order in which the pool completes the tasks, [invoke_batch]
    returns, and what it returns lines up one to one, in input order, with
    the requests that have an id: each response is the one the task of
    that request produced and carries its id.  Requests without an id have
    no entry, whatever their execution did - returned, failed or threw. *)
Theorem invoke_batch_preserves_order r requests (schedule : list nat) (w : World) :
  1 <= pool_size r ->
  schedule ≡ₚ seq 0 (length requests) ->
  exists responses w' r',
    invoke_batch World r requests schedule w = Some (responses, w', r') /\
    methods_ World r' = methods_ World r /\
    Forall2 (task_response r) (List.filter Request.has_id requests) responses.
Proof.
  intros Hpool Hperm. unfold invoke_batch.
  destruct requests as [|request rest] eqn:Hreqs.
  { exists [], w, r. repeat split. constructor. }
  rewrite <- Hreqs in *. clear Hreqs request rest.
  unfold pool_size in Hpool.
  destruct (get_batch_pool World r) as [pool r'] eqn:Hget. simpl in Hpool.
  assert (Hm : methods_ World r' = methods_ World r).
  { pose proof (get_batch_pool_methods r) as E. now rewrite Hget in E. }
  destruct (Z.eqb_spec (num_threads pool) 0) as [E|_]; [lia|].
  destruct (run_tasks_spec r' requests schedule [] w)
    as (out & w' & Hrun & Hidx & Hall).
  rewrite Hrun. simpl app.
  exists ((merge_sort by_index out).*2), w', r'.
  split; [reflexivity|]. split; [exact Hm|].
  apply (responses_in_order r requests).
  - rewrite merge_sort_Permutation.
    eapply Forall_impl; [exact Hall|].
    intros entry (request & Hreq & Hid & w0 & Hresp).
    exists request. split; [exact Hreq|]. split; [exact Hid|].
    exists w0. now rewrite <- (invoke_methods_only World r' r).
  - rewrite (sorted_indices requests schedule out Hperm Hidx).
    apply (positions_with_id [] requests).
Qed.

End Batch.

(** [echo_batch] with the tasks completing in the order 2, 0, 1. *)
Lemma invoke_batch_preserves_order_witness :
  exists responses w' r',
    invoke_batch nat echo_registry echo_batch [2; 0; 1]%nat 0%nat
      = Some (responses, w', r') /\
    methods_ nat r' = methods_ nat echo_registry /\
    Forall2 (task_response echo_registry)
      (List.filter Request.has_id echo_batch) responses.
Proof.
  apply invoke_batch_preserves_order.
  - vm_compute. discriminate.
  - simpl. etransitivity; [apply perm_swap|apply perm_skip, perm_swap].
Defined.

(** ** The pool-resize guard and the pool size *)

(** C8: while the server is running, [set_batch_concurrency] throws a
    [std::logic_error] and the server - registry and pool included - stays
    as it was; while it is stopped the call succeeds, the old pool is
    stopped and joined, and only then the new pool is spawned and
    installed. *)
Theorem set_batch_concurrency_guard (World : Type) (s : Server.t World)
    (threads : Z) :
  (Server.is_running World s = true ->
     exists what,
       Server.set_batch_concurrency World threads s
       = (Throw (StdLogicError what), s)) /\
  (Server.is_running World s = false ->
     exists s',
       Server.set_batch_concurrency World threads s = (Ok tt, s') /\
       Server.is_running World s' = false /\
       let old := Server.registry_ World s in
       let new := Server.registry_ World s' in
       let pool := new_pool (if (threads =? 0)%Z then 1 else threads) in
       batch_pool_ World new = Some pool /\
       methods_ World new = methods_ World old /\
       forall old_pool,
         batch_pool_ World old = Some old_pool ->
         pool_events World new
         = pool_events World old
             ++ [PoolStop old_pool; PoolJoin old_pool; PoolSpawn pool]).
Proof.
  unfold Server.set_batch_concurrency, Server.is_running. split; intros ->.
  - eexists. reflexivity.
  - eexists. split; [reflexivity|]. simpl. repeat split.
    intros old_pool ->. now rewrite <- app_assoc.
Qed.

(** The guard along the life of a server: the resize is accepted before
    [start()], refused while running - as is a second [start()] - and
    accepted again after [stop()]. *)
Example set_batch_concurrency_requires_stopped_server :
  (Server.set_batch_concurrency nat 2 fresh_server).1 = Ok tt /\
  (Server.start nat fresh_server).1 = Ok tt /\
  Server.is_running nat started_server = true /\
  (exists what,
     Server.set_batch_concurrency nat 2 started_server
     = (Throw (StdLogicError what), started_server)) /\
  (Server.start nat started_server).1
    = Throw (StdLogicError "Server is already running") /\
  Server.is_running nat (Server.stop nat started_server) = false /\
  (Server.set_batch_concurrency nat 2 (Server.stop nat started_server)).1 = Ok tt.
Proof.
  repeat apply conj; try reflexivity. eexists. reflexivity.
Qed.

(** Below 2^32 the guard of [set_batch_concurrency] does its job. *)
Lemma set_batch_concurrency_pool_size (World : Type)
    (r : MethodRegistry.t World) (threads : Z) :
  0 <= threads < 2 ^ 32 ->
  1 <= pool_size (set_batch_concurrency World threads r).
Proof.
  intros Hrange. unfold pool_size, set_batch_concurrency, get_batch_pool.
  simpl. unfold MachineInt.to_unsigned.
  destruct (Z.eqb_spec threads 0); rewrite Z.mod_small; lia.
Qed.

Lemma create_pool_size (World : Type) (hardware_concurrency : Z) :
  0 <= hardware_concurrency < 2 ^ 32 ->
  2 <= pool_size (create World hardware_concurrency).
Proof.
  intros Hrange. unfold pool_size, create, get_batch_pool. simpl.
  unfold MachineInt.to_unsigned. rewrite Z.mod_small; lia.
Qed.

(** C9 fails on the code: 2^32 is a valid [std::size_t]; the guard lets it
    through, [static_cast<unsigned>] turns it into 0, and the pool is
    built without a single worker.  A batch dispatched to it never
    returns. *)
Lemma set_batch_concurrency_truncates_thread_count :
  MachineInt.in_size_t 4294967296 /\
  batch_thread_count_ nat (set_batch_concurrency nat 4294967296 echo_registry)
    = 4294967296 /\
  batch_pool_ nat (set_batch_concurrency nat 4294967296 echo_registry)
    = Some (mkPool 0) /\
  pool_size (set_batch_concurrency nat 4294967296 echo_registry) = 0 /\
  invoke_batch nat (set_batch_concurrency nat 4294967296 echo_registry)
    echo_batch [0; 1; 2]%nat 0%nat = None.
Proof.
  split; [vm_compute; split; discriminate|].
  repeat apply conj; vm_compute; reflexivity.
Qed.

(** ** Server session *)

Section Session.

Import ServerSession.

Context `{BoostJson}.
Variable World : Type.

Implicit Types (sess : ServerSession.t World) (req : request) (w : World)
  (registry : MethodRegistry.t World).

Lemma process_request_engine sess req schedule w registry :
  reaches_engine req ->
  process_request World sess req schedule w registry =
  match parse_and_classify (body req) with
  | Throw (JsonRpcError e) =>
      Written (make_response ok "application/json"
                 (Protocol.serialize_response (Response.failure e JNull)))
              (log World sess ("解析请求失败: " +:+ Error.what e) w) registry
  | Throw x => Escaped x w
  | Ok (requests, is_batch) =>
      match invoke_batch World registry requests schedule w with
      | None => Blocked
      | Some (responses, w, registry) =>
          let res :=
            if is_batch then
              make_response ok "application/json"
                            (Protocol.serialize_batch_response responses)
            else
              match responses with
              | first :: _ =>
                  make_response ok "application/json"
                                (Protocol.serialize_response first)
              | [] => make_response no_content "application/json" EmptyString
              end in
          Written (mkResponse (result res) (res_content_type res) (res_body res)
                              (keep_alive req))
                  w registry
      end
  end.
Proof.
  intros [Hpost Hjson]. unfold process_request. now rewrite Hpost, Hjson.
Qed.

(** After a successful parse the session treats the body as a batch
    exactly when its top-level value is an array. *)
Lemma parse_and_classify_ok request_body jv requests :
  parse request_body = inl jv ->
  Protocol.parse_request request_body = Ok requests ->
  parse_and_classify request_body = Ok (requests, is_array jv).
Proof.
  intros Hparse Hreq. unfold parse_and_classify. rewrite Hreq, Hparse. simpl.
  destruct (1 <? length requests)%nat eqn:Hlen; [|reflexivity].
  simpl. revert Hreq.
  unfold Protocol.parse_request, Protocol.parse_text. rewrite Hparse. simpl.
  destruct jv; try reflexivity; simpl; try discriminate.
  destruct (Request.from_json (JObject o)); simpl; [|discriminate].
  intros [= <-]. discriminate.
Qed.

(** C10: when the body is a batch and one of its elements fails envelope
    validation, [parse_request] throws a single [InvalidRequest] error;
    the session answers with status 200 and one error response whose id is
    null.  The world it leaves is the one it found, passed through the
    logger once: no registered procedure has run, whatever the registry
    holds and wherever the invalid element stands in the batch. *)
Theorem invalid_batch_element_rejects_whole_batch sess req (schedule : list nat)
    w registry (arr : list value) (elem : value) :
  reaches_engine req ->
  parse (body req) = inl (JArray arr) ->
  In elem arr ->
  (forall request, Request.from_json elem <> Ok request) ->
  exists e,
    Protocol.parse_request (body req) = Throw (JsonRpcError e) /\
    Error.code e = ErrorCode.InvalidRequest /\
    process_request World sess req schedule w registry =
      Written (make_response ok "application/json"
                 (Protocol.serialize_response (Response.failure e JNull)))
              (log World sess ("解析请求失败: " +:+ Error.what e) w) registry /\
    Response.id (Response.failure e JNull) = JNull.
Proof.
  intros Hengine Hparse Hin Hbad.
  assert (Hreq : exists e,
             Protocol.parse_request (body req) = Throw (JsonRpcError e) /\
             Error.code e = ErrorCode.InvalidRequest).
  { unfold Protocol.parse_request, Protocol.parse_text. rewrite Hparse. simpl.
    destruct arr as [|first arr]; [destruct Hin|].
    destruct (exn_map Request.from_json (first :: arr)) as [rs|x] eqn:Hmap.
    - destruct (exn_map_ok_inv _ _ _ _ Hmap Hin) as [request Hr].
      now apply Hbad in Hr.
    - apply (exn_map_throws _
               (fun x => exists e, x = JsonRpcError e /\
                                   Error.code e = ErrorCode.InvalidRequest))
        in Hmap.
      + destruct Hmap as (e & -> & He). now exists e.
      + intros a y. apply request_from_json_throws. }
  destruct Hreq as (e & Hreq & He). exists e.
  repeat apply conj; try assumption; try reflexivity.
  rewrite process_request_engine by assumption.
  unfold parse_and_classify. now rewrite Hreq.
Qed.

(** Tasks of notifications leave nothing in [indexed_responses]. *)
Lemma invoke_batch_notifications registry requests schedule w :
  1 <= pool_size registry ->
  Forall (fun request => Request.has_id request = false) requests ->
  exists w' registry',
    invoke_batch World registry requests schedule w = Some ([], w', registry').
Proof.
  intros Hpool Hall. unfold invoke_batch.
  destruct requests as [|request rest] eqn:Hreqs; [eauto|].
  rewrite <- Hreqs in *. clear Hreqs request rest.
  unfold pool_size in Hpool.
  destruct (get_batch_pool World registry) as [pool r'] eqn:Hget.
  simpl in Hpool.
  destruct (Z.eqb_spec (num_threads pool) 0) as [E|_]; [lia|].
  destruct (run_tasks_spec World r' requests schedule [] w)
    as (out & w' & Hrun & Hidx & _).
  rewrite Hrun. simpl app.
  assert (Hnone : filter (has_id_at requests) schedule = []).
  { clear -Hall. induction schedule as [|i rest IH]; [reflexivity|].
    rewrite filter_cons_False; [exact IH|].
    intros (request & Hreq & Hid).
    rewrite Forall_forall in Hall.
    apply list_elem_of_lookup_2 in Hreq. apply Hall in Hreq. congruence. }
  rewrite Hnone in Hidx. apply fmap_nil_inv in Hidx. subst out.
  exists w', r'. reflexivity.
Qed.

(** What the session answers when no request of the body has an id.
    The single-request branch of [process_request] has a case for an
    empty list of responses and answers 204 with an empty body; the
    batch branch has none and serializes the empty list: status 200 and
    the text of the empty array. *)
Theorem notifications_only_response sess req (schedule : list nat) w registry
    (jv : value) (requests : list Request.t) :
  reaches_engine req ->
  1 <= pool_size registry ->
  parse (body req) = inl jv ->
  Protocol.parse_request (body req) = Ok requests ->
  Forall (fun request => Request.has_id request = false) requests ->
  exists w' registry',
    process_request World sess req schedule w registry =
      Written (if is_array jv
               then mkResponse ok "application/json" (serialize (JArray []))
                               (keep_alive req)
               else mkResponse no_content "application/json" EmptyString
                               (keep_alive req))
              w' registry'.
Proof.
  intros Hengine Hpool Hparse Hreq Hall.
  destruct (invoke_batch_notifications registry requests schedule w Hpool Hall)
    as (w' & registry' & Hbatch).
  exists w', registry'.
  rewrite process_request_engine by assumption.
  rewrite (parse_and_classify_ok _ jv requests Hparse Hreq), Hbatch.
  now destruct (is_array jv).
Qed.

End Session.

(** *** The session on concrete exchanges *)

(** C2 fails on the code for batches: a POST whose body is an array of
    notifications only is answered with status 200 and the body [[]],
    where the claim - and JSON-RPC 2.0, which the library documents it
    conforms to - asks for no response: 204 and an empty body, as the
    single-request branch gives under its own comment.  The batch branch
    of [process_request] misses that case.  Both notifications were
    executed. *)
Lemma notification_batch_gets_200 :
  Protocol.parse_request (body notification_batch_post)
    = Ok [Request.notification "echo" (JArray [JInt64 7]);
          Request.notification "echo" (JArray [JInt64 8])] /\
  written (process_request nat quiet_session notification_batch_post
             [0; 1]%nat 0%nat echo_registry)
    = Some (mkResponse ok "application/json" "[]" true, 2%nat) /\
  status_code ok = 200.
Proof. repeat apply conj; vm_compute; reflexivity. Qed.

(** A single notification is answered with 204, as C2 says. *)
Lemma notifications_only_response_witness :
  exists w' registry',
    process_request nat quiet_session notification_post [0]%nat 0%nat echo_registry
    = Written (mkResponse no_content "application/json" EmptyString false)
              w' registry'.
Proof.
  apply (notifications_only_response nat quiet_session notification_post
           [0]%nat 0%nat echo_registry
           (JObject [("jsonrpc", JString "2.0"); ("method", JString "echo");
                     ("params", JArray [JInt64 7])])
           [Request.notification "echo" (JArray [JInt64 7])]).
  - split; reflexivity.
  - vm_compute. discriminate.
  - vm_compute. reflexivity.
  - vm_compute. reflexivity.
  - repeat constructor.
Defined.

(** [broken_batch_post]: the first and third elements are valid calls of
    [echo]; neither runs. *)
Lemma invalid_batch_element_rejects_whole_batch_witness :
  exists e,
    Protocol.parse_request (body broken_batch_post) = Throw (JsonRpcError e) /\
    Error.code e = ErrorCode.InvalidRequest /\
    process_request nat quiet_session broken_batch_post [0; 1; 2]%nat 0%nat
      echo_registry
    = Written (make_response ok "application/json"
                 (Protocol.serialize_response (Response.failure e JNull)))
              (log nat quiet_session ("解析请求失败: " +:+ Error.what e) 0%nat)
              echo_registry /\
    Response.id (Response.failure e JNull) = JNull.
Proof.
  eapply (invalid_batch_element_rejects_whole_batch nat quiet_session
            broken_batch_post [0; 1; 2]%nat 0%nat echo_registry _
            (JObject [("jsonrpc", JString "2.0"); ("params", JArray [JInt64 2]);
                      ("id", JInt64 2)])).
  - split; reflexivity.
  - vm_compute. reflexivity.
  - right. left. reflexivity.
  - intros request. vm_compute. discriminate.
Defined.

(** ** Envelope round trip *)

Section RoundTrip.

Context `{BoostJson}.

Lemma request_envelope_round_trip (r : Request.t) :
  valid_request r ->
  Request.from_json (JObject (Request.to_json r)) = Ok r.
Proof.
  destruct r as [m p i [|]]; unfold valid_request; simpl; intros (Hm & Hp & Hi);
    unfold Request.from_json.
  - destruct p; try discriminate; destruct i; try discriminate;
      simpl; rewrite Hm; reflexivity.
  - subst i. destruct p; try discriminate; simpl; rewrite Hm; reflexivity.
Qed.

(** X1: for every valid request, whenever the text layer gives the
    serialized envelope back, [parse_request] of [serialize_request]
    gives the request back, as a list of one. *)
Lemma request_round_trip (r : Request.t) :
  valid_request r ->
  parse (serialize (JObject (Request.to_json r)))
    = inl (JObject (Request.to_json r)) ->
  Protocol.parse_request (Protocol.serialize_request r) = Ok [r].
Proof.
  intros Hvalid Htext.
  unfold Protocol.parse_request, Protocol.parse_text, Protocol.serialize_request.
  rewrite Htext. simpl. now rewrite request_envelope_round_trip.
Qed.

Lemma success_envelope_round_trip (result id : value) :
  Response.from_json (JObject (Response.to_json (Response.success result id)))
  = Ok (Response.success result id).
Proof. reflexivity. Qed.

(** An error without attached data survives the round trip. *)
Lemma error_envelope_round_trip (e : Error.t) (id : value) :
  MachineInt.in_int (Error.code e) ->
  c_str (Error.message e) = Error.message e ->
  Error.data e = JNull ->
  Response.from_json (JObject (Response.to_json (Response.failure e id)))
  = Ok (Response.failure e id).
Proof.
  destruct e as [c m d]. simpl. intros Hc Hm ->.
  unfold Response.from_json. simpl. now rewrite to_int_in_range, Hm.
Qed.

(** With data attached, the second [Error] is built from the
    moved-from message. *)
Lemma error_envelope_with_data (e : Error.t) (id : value) :
  MachineInt.in_int (Error.code e) ->
  Error.data e <> JNull ->
  Response.from_json (JObject (Response.to_json (Response.failure e id)))
  = Ok (Response.failure
          (Error.mk (Error.code e) (moved_from (Error.message e)) (Error.data e))
          id).
Proof.
  destruct e as [c m d]. simpl. intros Hc Hd.
  unfold Response.from_json.
  destruct d; try contradiction; simpl; now rewrite to_int_in_range.
Qed.

(** X2: success responses, and error responses without data whose code
    is an [int] and whose message has no NUL byte, come back unchanged
    from [parse_response] of [serialize_response], whenever the text layer
    gives the serialized envelope back. *)
Lemma response_round_trip (resp : Response.t) :
  (exists result id, resp = Response.success result id) \/
  (exists e id, resp = Response.failure e id /\
                MachineInt.in_int (Error.code e) /\
                c_str (Error.message e) = Error.message e /\
                Error.data e = JNull) ->
  parse (serialize (JObject (Response.to_json resp)))
    = inl (JObject (Response.to_json resp)) ->
  Protocol.parse_response (Protocol.serialize_response resp) = Ok resp.
Proof.
  intros Hvalid Htext.
  unfold Protocol.parse_response, Protocol.parse_text,
    Protocol.serialize_response.
  rewrite Htext. simpl.
  destruct Hvalid as [(result & id & ->)|(e & id & -> & Hc & Hm & Hd)].
  - apply success_envelope_round_trip.
  - now apply error_envelope_round_trip.
Qed.

End RoundTrip.

(** C5 fails on the code for error responses that carry data: the parsed
    response has an empty message. *)
Lemma error_data_round_trip_loses_message :
  Protocol.serialize_response error_with_data
    = RefJson.wire
        "{'jsonrpc':'2.0','error':{'code':-32602,'message':'bad argument','data':'x'},'id':7}" /\
  Protocol.parse_response (Protocol.serialize_response error_with_data)
    = Ok (Response.failure
            (Error.mk ErrorCode.InvalidParams EmptyString (JString "x"))
            (JInt64 7)) /\
  Protocol.parse_response (Protocol.serialize_response error_with_data)
    <> Ok error_with_data.
Proof.
  repeat apply conj; try (vm_compute; reflexivity).
  vm_compute. discriminate.
Qed.

(** [add_request] through the reference text layer. *)
Lemma request_round_trip_witness :
  Protocol.parse_request (Protocol.serialize_request add_request)
  = Ok [add_request].
Proof.
  apply request_round_trip.
  - repeat split; reflexivity.
  - vm_compute. reflexivity.
Defined.

(** A [MethodNotFound] answer through the reference text layer. *)
Lemma response_round_trip_witness :
  Protocol.parse_response (Protocol.serialize_response method_not_found_response)
  = Ok method_not_found_response.
Proof.
  apply response_round_trip.
  - right. exists (Error.make ErrorCode.MethodNotFound "no such method"), (JInt64 7).
    repeat split; first [reflexivity | vm_compute; discriminate].
  - vm_compute. reflexivity.
Defined.

(** The other way the round trip breaks: [Request::from_json] copies the
    method through [c_str()], which stops at the NUL byte. *)
Lemma method_with_nul_is_truncated :
  Request.from_json
    (JObject (Request.to_json (Request.notification method_with_nul JNull)))
  = Ok (Request.notification "a" JNull).
Proof. reflexivity. Qed.

(** * Further properties of the code *)

(** ** Protocol engine: what is accepted, what is refused and how *)

Lemma exn_map_Forall2 {A B} (f : A -> exn B) l ys :
  exn_map f l = Ok ys <-> Forall2 (fun a y => f a = Ok y) l ys.
Proof.
  revert ys. induction l as [|a l IH]; intros ys; simpl.
  - split; [intros [= <-]; constructor|]. intros HF. now inversion HF.
  - destruct (f a) as [y|x] eqn:Ea; simpl.
    + destruct (exn_map f l) as [ys'|x] eqn:El; simpl.
      * split.
        -- intros [= <-]. constructor; [exact Ea|]. now apply IH.
        -- intros HF. inversion HF as [|? y0 ? ys0 Hy Hrest]; subst.
           apply IH in Hrest. congruence.
      * split; [discriminate|].
        intros HF. inversion HF as [|? y0 ? ys0 Hy Hrest]; subst.
        apply IH in Hrest. discriminate.
    + split; [discriminate|].
      intros HF. inversion HF as [|? y0 ? ys0 Hy Hrest]; subst. congruence.
Qed.

Lemma exn_map_succeeds {A B} (f : A -> exn B) l :
  Forall (fun a => succeeds (f a)) l -> succeeds (exn_map f l).
Proof.
  induction 1 as [|a l [y Hy] _ [ys Hys]]; simpl.
  - now exists [].
  - rewrite Hy, Hys. simpl. now eexists.
Qed.

Lemma request_from_json_acceptable jv :
  succeeds (Request.from_json jv) <-> acceptable_request jv.
Proof.
  split.
  - intros [r Hr]. destruct jv as [| | | | | |arr|obj];
      try (unfold Request.from_json, throw_error in Hr; discriminate).
    exists obj. split; [reflexivity|].
    intros Hv. now apply (request_from_json_rejects obj Hv r).
  - intros (obj & -> & Hno). now apply request_from_json_accepts.
Qed.

Section ProtocolEngine.

Context `{BoostJson}.

(** [parse_request] once the text has been read. *)
Lemma parse_request_of_value (json_str : string) (jv : value) :
  parse json_str = inl jv ->
  Protocol.parse_request json_str =
  match jv with
  | JArray [] => throw_error ErrorCode.InvalidRequest "批量请求不能为空"
  | JArray arr => exn_map Request.from_json arr
  | _ => let! r := Request.from_json jv in Ok [r]
  end.
Proof.
  intros Hparse. unfold Protocol.parse_request, Protocol.parse_text.
  rewrite Hparse. now destruct jv as [| | | | | |[|elem arr]|obj].
Qed.

(** X3: [parse_request] fails with [ParseError] exactly when the text is
    not JSON, and with [InvalidRequest] in every other case of failure -
    among them the empty batch and a top-level value that is neither an
    object nor an array; nothing else ever leaves it.  What it returns
    is never empty and lines up, element by element and in order, with
    the request objects of the body. *)
Theorem parse_request_outcomes (json_str : string) :
  (forall what, parse json_str = inr what ->
     Protocol.parse_request json_str
     = throw_error ErrorCode.ParseError ("JSON 解析失败: " +:+ what)) /\
  (forall jv x, parse json_str = inl jv ->
     Protocol.parse_request json_str = Throw x ->
     error_with_code ErrorCode.InvalidRequest x) /\
  (parse json_str = inl (JArray []) ->
     fails_with ErrorCode.InvalidRequest (Protocol.parse_request json_str)) /\
  (forall jv, parse json_str = inl jv ->
     is_array jv = false -> is_object jv = false ->
     fails_with ErrorCode.InvalidRequest (Protocol.parse_request json_str)) /\
  (forall jv requests, parse json_str = inl jv ->
     Protocol.parse_request json_str = Ok requests ->
     requests <> [] /\
     Forall2 (fun elem request => Request.from_json elem = Ok request)
       (match jv with JArray arr => arr | _ => [jv] end) requests).
Proof.
  repeat apply conj.
  - intros what Hparse. unfold Protocol.parse_request, Protocol.parse_text.
    now rewrite Hparse.
  - intros jv x Hparse. rewrite (parse_request_of_value _ _ Hparse).
    destruct jv as [| | | | | |[|elem arr]|obj];
      try (unfold Request.from_json; simpl; thrown_error).
    + intros Hmap.
      apply (exn_map_throws Request.from_json
               (error_with_code ErrorCode.InvalidRequest)) in Hmap; [exact Hmap|].
      intros a y. apply request_from_json_throws.
    + destruct (Request.from_json (JObject obj)) eqn:Hr; simpl; [discriminate|].
      intros [= <-]. now apply request_from_json_throws in Hr.
  - intros Hparse. rewrite (parse_request_of_value _ _ Hparse).
    eexists. split; reflexivity.
  - intros jv Hparse Ha Ho. rewrite (parse_request_of_value _ _ Hparse).
    destruct jv; try discriminate; unfold Request.from_json; simpl;
      eexists; split; reflexivity.
  - intros jv requests Hparse. rewrite (parse_request_of_value _ _ Hparse).
    destruct jv as [| | | | | |[|elem arr]|obj];
      try (unfold Request.from_json; simpl; discriminate).
    + intros Hmap. apply exn_map_Forall2 in Hmap. split; [|exact Hmap].
      intros ->. inversion Hmap.
    + destruct (Request.from_json (JObject obj)) eqn:Hr; simpl; [|discriminate].
      intros [= <-]. split; [discriminate|]. now repeat constructor.
Qed.

(** X4: [parse_request] succeeds exactly when the text is JSON and its
    top-level value is an object that breaks none of the envelope rules,
    or a non-empty array of such objects. *)
Theorem parse_request_succeeds_iff (json_str : string) :
  succeeds (Protocol.parse_request json_str) <->
  exists jv,
    parse json_str = inl jv /\
    match jv with
    | JArray arr => arr <> [] /\ Forall acceptable_request arr
    | _ => acceptable_request jv
    end.
Proof.
  split.
  - intros [requests Hok].
    destruct (parse json_str) as [jv|what] eqn:Hparse.
    2:{ unfold Protocol.parse_request, Protocol.parse_text in Hok.
        rewrite Hparse in Hok. discriminate. }
    exists jv. split; [reflexivity|].
    rewrite (parse_request_of_value _ _ Hparse) in Hok.
    destruct jv as [| | | | | |[|elem arr]|obj];
      try (unfold Request.from_json in Hok; discriminate).
    + split; [discriminate|].
      apply exn_map_Forall2 in Hok.
      apply Forall_forall. intros v Hv.
      apply request_from_json_acceptable.
      apply list_elem_of_In in Hv.
      clear -Hok Hv. induction Hok as [|a r l rs Har _ IH]; [destruct Hv|].
      destruct Hv as [->|Hv]; [now exists r|now apply IH].
    + apply request_from_json_acceptable.
      destruct (Request.from_json (JObject obj)) as [r|]; [now exists r|discriminate].
  - intros (jv & Hparse & Hjv). rewrite (parse_request_of_value _ _ Hparse).
    destruct jv as [| | | | | |[|elem arr]|obj];
      try (destruct Hjv as (obj & [=] & _)).
    + destruct Hjv as [Hne _]. contradiction.
    + destruct Hjv as [_ Hall].
      apply exn_map_succeeds.
      eapply Forall_impl; [exact Hall|].
      intros v. apply request_from_json_acceptable.
    + apply request_from_json_acceptable in Hjv as [r Hr].
      rewrite Hr. simpl. now eexists.
Qed.

End ProtocolEngine.

(** X5: what [Request::from_json] makes of an object it accepts: the
    method is the [method] member, cut at its first NUL byte; an absent
    [params] member is stored as null; the request has an id exactly when
    the [id] member is present - an explicit [null] id is an id, not a
    notification. *)
Theorem request_from_json_fields (obj : object) (request : Request.t) :
  Request.from_json (JObject obj) = Ok request ->
  (exists m, Json.find "method" obj = Some (JString m) /\
             Request.method request = c_str m) /\
  Request.params request = default JNull (Json.find "params" obj) /\
  match Json.find "id" obj with
  | Some i => Request.has_id request = true /\ Request.id request = i
  | None => Request.has_id request = false /\ Request.id request = JNull
  end.
Proof.
  unfold Request.from_json, throw_error.
  destruct (validate_version obj); simpl; [|discriminate].
  destruct (Json.find "method" obj) as [[| | | | |m| |]|]; try discriminate.
  destruct (Json.find "params" obj) as [p|]; simpl.
  - destruct (negb (is_array p) && negb (is_object p) && negb (is_null p));
      simpl; [discriminate|].
    destruct (Json.find "id" obj) as [i|].
    + destruct (negb (is_string i) && negb (is_number i) && negb (is_null i));
        [discriminate|].
      intros [= <-]. simpl. eauto 6.
    + intros [= <-]. simpl. eauto 6.
  - destruct (Json.find "id" obj) as [i|].
    + destruct (negb (is_string i) && negb (is_number i) && negb (is_null i));
        [discriminate|].
      intros [= <-]. simpl. eauto 6.
    + intros [= <-]. simpl. eauto 6.
Qed.

(** The object [null_id_object] is a call whose id is null. *)
Lemma request_from_json_fields_witness :
  (exists m, Json.find "method" null_id_object = Some (JString m) /\
             Request.method (Request.with_id "ping" JNull JNull) = c_str m) /\
  Request.params (Request.with_id "ping" JNull JNull) = JNull /\
  Request.has_id (Request.with_id "ping" JNull JNull) = true /\
  Request.id (Request.with_id "ping" JNull JNull) = JNull.
Proof.
  apply (request_from_json_fields null_id_object
           (Request.with_id "ping" JNull JNull)).
  reflexivity.
Defined.

(** [Response::from_json] throws nothing but [InvalidRequest]. *)
Lemma response_from_json_throws (jv : value) x :
  Response.from_json jv = Throw x ->
  error_with_code ErrorCode.InvalidRequest x.
Proof.
  unfold Response.from_json.
  destruct jv as [| | | | | |arr|obj]; try thrown_error.
  destruct (validate_version obj); simpl; [|thrown_error].
  destruct (Json.find "id" obj) as [i|]; [|thrown_error].
  destruct (Json.find "result" obj) as [res|],
           (Json.find "error" obj) as [[| | | | | | |err]|];
    try thrown_error; try discriminate.
  destruct (Json.find "code" err) as [[| |c| | | | |]|]; try thrown_error.
  destruct (Json.find "message" err) as [[| | | | |m| |]|]; try thrown_error.
  discriminate.
Qed.

(** X6: [Response::from_json] fails with [InvalidRequest] and nothing
    else.  What it accepts is an object with [jsonrpc] "2.0", an [id]
    member, and exactly one of [result] and [error]; an [error] is an
    object with an integer [code] and a string [message].  The response
    carries the [id] member, the [result] member as it is, the code
    narrowed to [int] and the [data] member (null when absent). *)
Theorem response_from_json_spec (jv : value) :
  (forall x, Response.from_json jv = Throw x ->
     error_with_code ErrorCode.InvalidRequest x) /\
  (forall response, Response.from_json jv = Ok response ->
     exists obj i,
       jv = JObject obj /\
       Json.find "jsonrpc" obj = Some (JString "2.0") /\
       Json.find "id" obj = Some i /\
       Response.id response = i /\
       if Response.is_error response then
         Json.find "result" obj = None /\
         exists err c m,
           Json.find "error" obj = Some (JObject err) /\
           Json.find "code" err = Some (JInt64 c) /\
           Json.find "message" err = Some (JString m) /\
           Error.code (Response.error_ response) = MachineInt.to_int c /\
           Error.data (Response.error_ response)
           = default JNull (Json.find "data" err)
       else
         Json.find "error" obj = None /\
         Json.find "result" obj = Some (Response.result_ response)).
Proof.
  split; [apply response_from_json_throws|].
  unfold Response.from_json.
  - intros response. destruct jv as [| | | | | |arr|obj]; try discriminate.
    destruct (validate_version obj) eqn:Hver; simpl; [|discriminate].
    apply validate_version_true in Hver.
    destruct (Json.find "id" obj) as [i|] eqn:Hid; [|discriminate].
    destruct (Json.find "result" obj) as [res|] eqn:Hres,
             (Json.find "error" obj) as [[| | | | | | |err]|] eqn:Herr;
      try discriminate.
    + intros [= <-]. exists obj, i. simpl. auto 10.
    + destruct (Json.find "code" err) as [[| |c| | | | |]|] eqn:Hc;
        try discriminate.
      destruct (Json.find "message" err) as [[| | | | |m| |]|] eqn:Hm;
        try discriminate.
      intros [= <-]. exists obj, i. simpl.
      repeat apply conj; try reflexivity; try assumption.
      exists err, c, m.
      repeat apply conj; try reflexivity; try assumption.
      all: now destruct (Json.find "data" err).
Qed.

(** An error code that does not fit an [int] is narrowed, as
    [static_cast<int>] does. *)
Example response_from_json_narrows_code :
  Response.from_json (JObject wide_code_envelope)
  = Ok (Response.failure (Error.make 1 "wide") (JInt64 3)).
Proof. reflexivity. Qed.

Section ClientSideParsers.

Context `{BoostJson}.

(** X7: the two parsers of the client side fail with [ParseError]
    exactly when the text is not JSON and with [InvalidRequest] in every
    other case of failure; [parse_response] refuses what is not an
    object, [parse_batch_response] what is not an array; an empty array
    is an empty list of responses, and a parsed batch lines up, element
    by element and in order, with the response objects of the body. *)
Theorem response_parsers_outcomes (json_str : string) :
  (forall what, parse json_str = inr what ->
     Protocol.parse_response json_str
     = throw_error ErrorCode.ParseError ("JSON 解析失败: " +:+ what) /\
     Protocol.parse_batch_response json_str
     = throw_error ErrorCode.ParseError ("JSON 解析失败: " +:+ what)) /\
  (forall jv x, parse json_str = inl jv ->
     Protocol.parse_response json_str = Throw x \/
     Protocol.parse_batch_response json_str = Throw x ->
     error_with_code ErrorCode.InvalidRequest x) /\
  (forall jv, parse json_str = inl jv -> is_object jv = false ->
     fails_with ErrorCode.InvalidRequest (Protocol.parse_response json_str)) /\
  (forall jv, parse json_str = inl jv -> is_array jv = false ->
     fails_with ErrorCode.InvalidRequest
       (Protocol.parse_batch_response json_str)) /\
  (parse json_str = inl (JArray []) ->
     Protocol.parse_batch_response json_str = Ok []) /\
  (forall arr responses, parse json_str = inl (JArray arr) ->
     Protocol.parse_batch_response json_str = Ok responses ->
     Forall2 (fun elem response =>
                is_object elem = true /\ Response.from_json elem = Ok response)
       arr responses).
Proof.
  unfold Protocol.parse_response, Protocol.parse_batch_response,
    Protocol.parse_text.
  repeat apply conj.
  - intros what ->. split; reflexivity.
  - intros jv x ->. cbn [exn_bind]. intros [Hx|Hx].
    + destruct (negb (is_object jv)); [revert Hx; thrown_error|].
      now apply response_from_json_throws in Hx.
    + destruct jv as [| | | | | |arr|obj]; try (revert Hx; thrown_error).
      apply (exn_map_throws _ (error_with_code ErrorCode.InvalidRequest))
        in Hx; [exact Hx|].
      intros elem y. destruct (negb (is_object elem)); [thrown_error|].
      apply response_from_json_throws.
  - intros jv -> Ho. cbn [exn_bind]. rewrite Ho. eexists. split; reflexivity.
  - intros jv -> Ha. cbn [exn_bind].
    destruct jv; try discriminate; eexists; split; reflexivity.
  - intros ->. reflexivity.
  - intros arr responses ->. cbn [exn_bind]. intros Hmap.
    apply exn_map_Forall2 in Hmap.
    eapply Forall2_impl; [exact Hmap|].
    intros elem response. simpl.
    destruct (is_object elem); simpl; [auto|discriminate].
Qed.

Lemma exn_map_round_trip {A} (to : A -> value) (from : value -> exn A)
    (P : A -> Prop) (l : list A) :
  (forall a, P a -> from (to a) = Ok a) ->
  Forall P l -> exn_map from (map to l) = Ok l.
Proof.
  intros Hrt. induction 1 as [|a l Ha _ IH]; [reflexivity|].
  cbn [map exn_map]. now rewrite (Hrt a Ha), IH.
Qed.

Lemma plain_response_round_trip (resp : Response.t) :
  plain_response resp ->
  Response.from_json (JObject (Response.to_json resp)) = Ok resp.
Proof.
  intros [(result & id & ->)|(e & id & -> & Hc & Hm & Hd)].
  - reflexivity.
  - destruct e as [c m d]. simpl in *. subst d.
    unfold Response.from_json. simpl. now rewrite to_int_in_range, Hm.
Qed.

Lemma batch_requests_parse (requests : list Request.t) :
  requests <> [] ->
  Forall valid_request requests ->
  parse (Protocol.serialize_batch_request requests)
    = inl (JArray (map (fun r => JObject (Request.to_json r)) requests)) ->
  Protocol.parse_request (Protocol.serialize_batch_request requests)
  = Ok requests.
Proof.
  intros Hne Hvalid Htext.
  rewrite (parse_request_of_value _ _ Htext).
  destruct requests as [|request rest]; [contradiction|].
  change (exn_map Request.from_json
            (map (fun r => JObject (Request.to_json r)) (request :: rest))
          = Ok (request :: rest)).
  apply (exn_map_round_trip _ _ valid_request); [|exact Hvalid].
  intros r. apply request_envelope_round_trip.
Qed.

(** X8: a batch of requests, each valid, comes back unchanged and in
    order from [parse_request] of [serialize_batch_request], whenever the
    text layer gives the serialized array back - unless the batch is
    empty: the text of an empty batch is refused with [InvalidRequest]. *)
Theorem batch_request_round_trip (requests : list Request.t) :
  Forall valid_request requests ->
  parse (Protocol.serialize_batch_request requests)
    = inl (JArray (map (fun r => JObject (Request.to_json r)) requests)) ->
  match requests with
  | [] => fails_with ErrorCode.InvalidRequest
            (Protocol.parse_request (Protocol.serialize_batch_request requests))
  | _ => Protocol.parse_request (Protocol.serialize_batch_request requests)
         = Ok requests
  end.
Proof.
  intros Hvalid Htext.
  destruct requests as [|request rest].
  - rewrite (parse_request_of_value _ _ Htext). eexists. split; reflexivity.
  - now apply batch_requests_parse.
Qed.

Lemma batch_responses_parse (responses : list Response.t) :
  Forall plain_response responses ->
  parse (Protocol.serialize_batch_response responses)
    = inl (JArray (map (fun r => JObject (Response.to_json r)) responses)) ->
  Protocol.parse_batch_response (Protocol.serialize_batch_response responses)
  = Ok responses.
Proof.
  intros Hplain Htext.
  unfold Protocol.parse_batch_response at 1, Protocol.parse_text.
  rewrite Htext. cbn [exn_bind].
  apply (exn_map_round_trip (fun r => JObject (Response.to_json r)) _
           plain_response); [|exact Hplain].
  intros r Hr. cbn [is_object negb]. now apply plain_response_round_trip.
Qed.

(** X9: a list of responses - successes, and errors without data whose
    code is an [int] and whose message has no NUL byte - comes back
    unchanged and in order from [parse_batch_response] of
    [serialize_batch_response], the empty list included, whenever the text
    layer gives the serialized array back. *)
Theorem batch_response_round_trip (responses : list Response.t) :
  Forall plain_response responses ->
  parse (Protocol.serialize_batch_response responses)
    = inl (JArray (map (fun r => JObject (Response.to_json r)) responses)) ->
  Protocol.parse_batch_response (Protocol.serialize_batch_response responses)
  = Ok responses.
Proof. apply batch_responses_parse. Qed.

End ClientSideParsers.

(** [echo_batch] through the reference text layer. *)
Lemma batch_request_round_trip_witness :
  Protocol.parse_request (Protocol.serialize_batch_request echo_batch)
  = Ok echo_batch.
Proof.
  apply (batch_request_round_trip echo_batch).
  - repeat constructor.
  - vm_compute. reflexivity.
Defined.

(** A success and an error through the reference text layer. *)
Lemma batch_response_round_trip_witness :
  Protocol.parse_batch_response
    (Protocol.serialize_batch_response
       [Response.success (JInt64 5) (JInt64 10); method_not_found_response])
  = Ok [Response.success (JInt64 5) (JInt64 10); method_not_found_response].
Proof.
  apply batch_response_round_trip.
  - constructor; [|constructor; [|constructor]].
    + left. now exists (JInt64 5), (JInt64 10).
    + right.
      exists (Error.make ErrorCode.MethodNotFound "no such method"), (JInt64 7).
      repeat split; first [reflexivity | vm_compute; discriminate].
  - vm_compute. reflexivity.
Defined.

(** ** Value codec: containers and the way back *)

Section CodecRoundTrip.

Import TypeConverter.

Lemma key_lt_neq a b : key_lt a b -> String.eqb a b = false.
Proof.
  unfold key_lt, String.ltb. intros Hlt. apply String.eqb_neq. intros ->.
  pose proof (String.compare_antisym b b) as Hanti.
  destruct (String.compare b b); simpl in Hanti; discriminate.
Qed.

Lemma key_lt_asym a b : key_lt a b -> String.ltb b a = false.
Proof.
  unfold key_lt, String.ltb. intros Hlt.
  rewrite (String.compare_antisym b a).
  destruct (String.compare a b); simpl; (reflexivity || discriminate).
Qed.

(** Assigning a key greater than all present appends it. *)
Lemma set_above (key : string) (v : value) (obj : object) :
  Forall (fun k => key_lt k key) (obj.*1) ->
  Json.set key v obj = obj ++ [(key, v)].
Proof.
  induction obj as [|[k v0] obj IH]; simpl; intros Hall; [reflexivity|].
  apply Forall_cons in Hall as [Hk Hall].
  rewrite (key_lt_neq _ _ Hk), IH by exact Hall. reflexivity.
Qed.

Lemma map_set_above (key : string) (c : cvalue) (m : list (string * cvalue)) :
  Forall (fun k => key_lt k key) (m.*1) ->
  map_set key c m = m ++ [(key, c)].
Proof.
  induction m as [|[k c0] m IH]; simpl; intros Hall; [reflexivity|].
  apply Forall_cons in Hall as [Hk Hall].
  rewrite (key_lt_neq _ _ Hk), (key_lt_asym _ _ Hk), IH by exact Hall.
  reflexivity.
Qed.

(** What [to_json] of a map builds on top of [obj]. *)
Lemma encode_members_sorted (f : cvalue -> value) (m : list (string * cvalue)) :
  forall obj : object,
    StronglySorted key_lt (m.*1) ->
    Forall (fun k => Forall (key_lt k) (m.*1)) (obj.*1) ->
    encode_members f m obj = obj ++ map (fun entry => (entry.1, f entry.2)) m.
Proof.
  induction m as [|[k c] m IH]; intros obj Hsorted Hbelow; simpl.
  - now rewrite app_nil_r.
  - simpl in Hsorted. apply StronglySorted_inv in Hsorted as [Hsorted Hk].
    rewrite set_above.
    2:{ eapply Forall_impl; [exact Hbelow|]. simpl. intros k0 Hk0.
        now apply Forall_cons in Hk0 as [Hk0 _]. }
    rewrite IH, <- app_assoc; [reflexivity|exact Hsorted|].
    rewrite fmap_app. apply Forall_app. split.
    + eapply Forall_impl; [exact Hbelow|]. simpl. intros k0 Hk0.
      now apply Forall_cons in Hk0 as [_ Hk0].
    + simpl. constructor; [exact Hk|constructor].
Qed.

(** What [from_json] of a map adds to [result]. *)
Lemma decode_members_sorted (f : cvalue -> value) (g : value -> exn cvalue)
    (m : list (string * cvalue)) :
  forall result : list (string * cvalue),
    StronglySorted key_lt (m.*1) ->
    Forall (fun k => Forall (key_lt k) (m.*1)) (result.*1) ->
    Forall (fun entry => g (f entry.2) = Ok entry.2) m ->
    decode_members g (map (fun entry => (entry.1, f entry.2)) m) result
    = Ok (result ++ m).
Proof.
  induction m as [|[k c] m IH]; intros result Hsorted Hbelow Hrt; simpl.
  - now rewrite app_nil_r.
  - simpl in Hsorted. apply StronglySorted_inv in Hsorted as [Hsorted Hk].
    apply Forall_cons in Hrt as [Hc Hrt]. simpl in Hc. rewrite Hc. simpl.
    rewrite map_set_above.
    2:{ eapply Forall_impl; [exact Hbelow|]. simpl. intros k0 Hk0.
        now apply Forall_cons in Hk0 as [Hk0 _]. }
    rewrite IH, <- app_assoc; [reflexivity|exact Hsorted| |exact Hrt].
    rewrite fmap_app. apply Forall_app. split.
    + eapply Forall_impl; [exact Hbelow|]. simpl. intros k0 Hk0.
      now apply Forall_cons in Hk0 as [_ Hk0].
    + simpl. constructor; [exact Hk|constructor].
Qed.

Lemma from_json_to_json (T : ty) : forall c : cvalue,
  has_type T c -> from_json T (to_json c) = Ok c.
Proof.
  induction T as [| | | | | | |E IH|E IH]; intros c Hc;
    destruct c; simpl in Hc; try contradiction; try reflexivity.
  - simpl. now rewrite to_int_in_range.
  - simpl. now rewrite Hc.
  - simpl. now rewrite Hc.
  - cbn [to_json from_json].
    rewrite (exn_map_round_trip to_json (from_json E) (has_type E));
      [reflexivity|exact IH|exact Hc].
  - destruct Hc as [Hsorted Hall]. cbn [to_json from_json].
    rewrite encode_members_sorted by (exact Hsorted || constructor).
    rewrite app_nil_l, (decode_members_sorted to_json (from_json E));
      [reflexivity|exact Hsorted|constructor|].
    eapply Forall_impl; [exact Hall|]. intros entry. apply IH.
Qed.

(** X10: for each of the built-in converters, decoding what [to_json]
    produced gives the value back: [from_json<T>(to_json(v)) == v] for
    every [v] of type [T] - [int], [int64_t], [uint64_t], [double],
    [float], [bool], [std::string] without NUL byte, and vectors and
    string-keyed maps of such values, nested to any depth. *)
Theorem codec_round_trip (T : ty) (c : cvalue) :
  has_type T c -> from_json T (to_json c) = Ok c.
Proof. apply from_json_to_json. Qed.

(** A map of vectors of [int]. *)
Lemma codec_round_trip_witness :
  from_json (TMap (TVector TInt)) (to_json scores) = Ok scores.
Proof.
  apply codec_round_trip. split.
  - repeat constructor.
  - repeat constructor; vm_compute; discriminate.
Defined.

(** X11: decoding a container.  A [std::vector<T>] is decoded from an
    array, element by element and in order, and from nothing else; a
    [std::map<std::string, T>] is decoded from an object all of whose
    members decode, and from nothing else; and whatever the type, nested
    or not, a failure is an [InvalidParams] error. *)
Theorem container_from_json_spec (E : ty) (jv : value) :
  (succeeds (from_json (TVector E) jv) <->
   exists arr, jv = JArray arr /\ Forall (fun v => succeeds (from_json E v)) arr) /\
  (forall arr l,
     from_json (TVector E) (JArray arr) = Ok (VVector l) <->
     Forall2 (fun v c => from_json E v = Ok c) arr l) /\
  (succeeds (from_json (TMap E) jv) <->
   exists obj, jv = JObject obj /\
               Forall (fun member => succeeds (from_json E member.2)) obj) /\
  (forall T x, from_json T jv = Throw x ->
               error_with_code ErrorCode.InvalidParams x).
Proof.
  repeat apply conj.
  - intros [c Hc]. destruct jv as [| | | | | |arr|obj]; try discriminate.
    exists arr. split; [reflexivity|].
    cbn [from_json] in Hc.
    destruct (exn_map (from_json E) arr) as [l|] eqn:Hmap; [|discriminate].
    apply exn_map_Forall2 in Hmap. clear Hc.
    induction Hmap as [|v c0 arr l Hv _ IH]; constructor;
      [now exists c0|exact IH].
  - intros (arr & -> & Hall). cbn [from_json].
    apply exn_map_succeeds in Hall as [l Hl]. rewrite Hl. now eexists.
  - intros arr l. cbn [from_json]. rewrite <- exn_map_Forall2.
    destruct (exn_map (from_json E) arr); simpl; split; congruence.
  - intros [c Hc]. destruct jv as [| | | | | |arr|obj]; try discriminate.
    exists obj. split; [reflexivity|].
    cbn [from_json] in Hc.
    destruct (decode_members (from_json E) obj []) as [m|] eqn:Hdec;
      [|discriminate].
    clear Hc. revert Hdec. generalize (@nil (string * cvalue)).
    induction obj as [|[k v] obj IHo]; intros acc; simpl; [constructor|].
    destruct (from_json E v) as [c0|] eqn:Ev; simpl; [|discriminate].
    intros Hdec. constructor; [now exists c0|]. eapply IHo, Hdec.
  - intros (obj & -> & Hall). cbn [from_json].
    assert (Hdec : forall acc, succeeds (decode_members (from_json E) obj acc)).
    { induction Hall as [|[k v] obj [c0 Hc0] _ IHo]; intros acc; simpl.
      - now exists acc.
      - simpl in Hc0. rewrite Hc0. simpl. apply IHo. }
    destruct (Hdec []) as [m Hm]. rewrite Hm. now eexists.
  - intros T x. apply from_json_throws.
Qed.

End CodecRoundTrip.

(** ** Method wrappers and the registry *)


Section Registry.

Variable World : Type.

Implicit Types (r : MethodRegistry.t World) (request : Request.t) (w : World)
  (func : Func World).


Lemma invoke_result r request func w args result w' :
  methods_ World r !! Request.method request
    = Some (MethodWrapperImpl World func) ->
  TypeConverter.extract_args (args_tuple World func) (Request.params request)
    = Ok args ->
  call_with_tuple World func args w = (Ok result, w') ->
  invoke World r request w
  = (Ok (Response.success
           (match result with
            | Some c => TypeConverter.to_json c
            | None => JNull
            end)
           (Request.id request)), w').
Proof.
  intros Hl Hargs Hcall.
  unfold invoke, MethodWrapperBase in *. cbv zeta. rewrite Hl.
  unfold MethodWrapperImpl. rewrite Hargs, Hcall.
  now destruct result.
Qed.

(** X13: when the arguments fit and the procedure's body returns,
    [invoke] answers with a success response that carries the request's
    id and the returned value converted by [to_json] - null for a
    procedure returning [void] - and leaves the world the body left. *)
Theorem invoke_returns_result r request func w args result w' :
  methods_ World r !! Request.method request
    = Some (MethodWrapperImpl World func) ->
  TypeConverter.extract_args (args_tuple World func) (Request.params request)
    = Ok args ->
  call_with_tuple World func args w = (Ok result, w') ->
  invoke World r request w
  = (Ok (Response.success
           (match result with
            | Some c => TypeConverter.to_json c
            | None => JNull
            end)
           (Request.id request)), w').
Proof. apply invoke_result. Qed.

(** X14: registering a procedure.  The name is bound to the new
    procedure, replacing an earlier one of the same name; a call of that
    name is answered by it alone, whatever else the registry holds; calls
    of other names are answered as before; the pool is not touched. *)
Theorem register_method_spec name func r :
  methods_ World (register_method World name func r) !! name
    = Some (MethodWrapperImpl World func) /\
  (forall func0,
     register_method World name func (register_method World name func0 r)
     = register_method World name func r) /\
  (forall r0 request w,
     Request.method request = name ->
     invoke World (register_method World name func r) request w
     = invoke World (register_method World name func r0) request w) /\
  (forall request w,
     Request.method request <> name ->
     invoke World (register_method World name func r) request w
     = invoke World r request w) /\
  batch_pool_ World (register_method World name func r) = batch_pool_ World r /\
  batch_thread_count_ World (register_method World name func r)
    = batch_thread_count_ World r.
Proof.
  repeat apply conj; try reflexivity.
  - apply lookup_insert_eq.
  - intros func0. unfold register_method. simpl.
    now rewrite insert_insert_eq.
  - intros r0 request w <-. unfold invoke, register_method. simpl.
    now rewrite !lookup_insert_eq.
  - intros request w Hne. unfold invoke, register_method. simpl.
    now rewrite lookup_insert_ne by congruence.
Qed.

(** X15: a registry built by the constructor and changed through
    [register_method] and [set_batch_concurrency] always holds a pool -
    the one built for the current thread count - and its thread count is
    at least 1.  Every pool it held before was stopped and joined before
    the next one was spawned, so exactly one pool is alive.  The lazy
    creation in [get_batch_pool] never runs, and [invoke_batch] leaves
    the registry as it found it. *)
Theorem constructed_registry_invariant r :
  constructed r ->
  1 <= batch_thread_count_ World r /\
  (exists retired,
     pool_events World r
     = flat_map retired_pool retired
         ++ [PoolSpawn (new_pool (batch_thread_count_ World r))]) /\
  batch_pool_ World r = Some (new_pool (batch_thread_count_ World r)) /\
  get_batch_pool World r = (new_pool (batch_thread_count_ World r), r) /\
  (forall requests schedule w responses w' r',
     invoke_batch World r requests schedule w = Some (responses, w', r') ->
     r' = r).
Proof.
  intros Hr.
  assert (Hinv : 1 <= batch_thread_count_ World r /\
                 (exists retired,
                    pool_events World r
                    = flat_map retired_pool retired
                        ++ [PoolSpawn (new_pool (batch_thread_count_ World r))]) /\
                 batch_pool_ World r
                 = Some (new_pool (batch_thread_count_ World r))).
  { induction Hr as [hc Hhc|name func r Hr IH|threads r Hthreads Hr IH].
    - simpl. repeat apply conj; [lia| |reflexivity]. now exists [].
    - exact IH.
    - destruct IH as (Hcount & (retired & Hevents) & Hpool).
      unfold set_batch_concurrency. rewrite Hpool, Hevents. simpl.
      repeat apply conj.
      + destruct Hthreads as [Hlo _]. destruct (Z.eqb_spec threads 0); lia.
      + exists (retired ++ [new_pool (batch_thread_count_ World r)]).
        rewrite flat_map_app. simpl. rewrite <- !app_assoc. reflexivity.
      + reflexivity. }
  destruct Hinv as (Hcount & Hevents & Hpool).
  assert (Hget : get_batch_pool World r
                 = (new_pool (batch_thread_count_ World r), r))
    by (unfold get_batch_pool; now rewrite Hpool).
  repeat apply conj; try assumption.
  intros requests schedule w responses w' r'. unfold invoke_batch.
  destruct requests as [|request rest]; [now intros [= _ _ <-]|].
  rewrite Hget.
  destruct (Z.eqb (num_threads (new_pool (batch_thread_count_ World r))) 0);
    [discriminate|].
  destruct (run_tasks World r (request :: rest) schedule [] w).
  now intros [= _ _ <-].
Qed.

Lemma run_tasks_world r requests schedule : forall acc w,
  (run_tasks World r requests schedule acc w).2
  = world_after_tasks r requests schedule w.
Proof.
  unfold world_after_tasks.
  induction schedule as [|idx later IH]; intros acc w; simpl; [reflexivity|].
  destruct (requests !! idx) as [request|]; [|apply IH].
  destruct (batch_task World r idx request w) as [pushed w1] eqn:Htask.
  rewrite IH. f_equal.
  unfold batch_task in Htask.
  destruct (Request.has_id request).
  - destruct (invoke World r request w) as [[resp|x] w2];
      injection Htask as _ <-; reflexivity.
  - now injection Htask as _ <-.
Qed.

Lemma invoke_batch_world r requests (schedule : list nat) w :
  1 <= pool_size r ->
  exists responses r',
    invoke_batch World r requests schedule w
    = Some (responses, world_after_tasks r requests schedule w, r') /\
    methods_ World r' = methods_ World r.
Proof.
  intros Hpool. unfold invoke_batch.
  destruct requests as [|request rest] eqn:Hreqs.
  { exists [], r. split; [|reflexivity]. f_equal. f_equal. f_equal.
    unfold world_after_tasks. clear. induction schedule as [|idx later IH];
      [reflexivity|]. simpl. exact IH. }
  rewrite <- Hreqs in *. clear Hreqs request rest.
  unfold pool_size in Hpool.
  destruct (get_batch_pool World r) as [pool r'] eqn:Hget. simpl in Hpool.
  assert (Hm : methods_ World r' = methods_ World r).
  { pose proof (get_batch_pool_methods World r) as E. now rewrite Hget in E. }
  destruct (Z.eqb_spec (num_threads pool) 0) as [E|_]; [lia|].
  pose proof (run_tasks_world r' requests schedule [] w) as Hworld.
  destruct (run_tasks World r' requests schedule [] w) as [out w'].
  simpl in Hworld. subst w'.
  eexists _, r'. split; [|exact Hm]. f_equal. f_equal. f_equal.
  unfold world_after_tasks. clear -Hm. revert w.
  induction schedule as [|idx later IH]; intros w; [reflexivity|]. simpl.
  destruct (requests !! idx) as [request|]; [|apply IH].
  now rewrite (invoke_methods_only World r' r request w Hm).
Qed.


End Registry.


(** [echo(5)] answers 5 and counts one executed body. *)
Lemma invoke_returns_result_witness :
  invoke nat echo_registry echo_call 0%nat
  = (Ok (Response.success (JInt64 5) (JInt64 10)), 1%nat).
Proof.
  apply (invoke_returns_result nat echo_registry echo_call echo 0%nat
           [TypeConverter.VInt 5] (Some (TypeConverter.VInt 5)) 1%nat).
  - apply lookup_insert_eq.
  - reflexivity.
  - reflexivity.
Defined.

(** After [set_batch_concurrency(0)] the count is 1 and the pool of the
    constructor has been retired. *)
Lemma constructed_registry_invariant_witness :
  1 <= batch_thread_count_ nat resized_registry /\
  (exists retired,
     pool_events nat resized_registry
     = flat_map retired_pool retired
         ++ [PoolSpawn (new_pool (batch_thread_count_ nat resized_registry))]) /\
  batch_pool_ nat resized_registry
  = Some (new_pool (batch_thread_count_ nat resized_registry)) /\
  get_batch_pool nat resized_registry
  = (new_pool (batch_thread_count_ nat resized_registry), resized_registry) /\
  (forall requests schedule w responses w' r',
     invoke_batch nat resized_registry requests schedule w
     = Some (responses, w', r') ->
     r' = resized_registry).
Proof.
  apply (constructed_registry_invariant nat resized_registry).
  apply constructed_resize; [vm_compute; split; discriminate|].
  apply constructed_register, constructed_create. lia.
Defined.


(** ** Server facade: the running flag *)


(** ** Server session: every exchange *)

Section Exchange.

Import ServerSession.

Context `{BoostJson}.
Variable World : Type.

Implicit Types (sess : ServerSession.t World) (req : request) (w : World)
  (registry : MethodRegistry.t World).

(** Nothing but an [Error] leaves [parse_request]. *)
Lemma parse_request_throws (json_str : string) x :
  Protocol.parse_request json_str = Throw x ->
  exists e, x = JsonRpcError e /\
            (Error.code e = ErrorCode.ParseError \/
             Error.code e = ErrorCode.InvalidRequest).
Proof.
  destruct (parse json_str) as [jv|what] eqn:Hparse.
  - rewrite (parse_request_of_value _ _ Hparse). intros Hx.
    assert (Hinv : error_with_code ErrorCode.InvalidRequest x).
    { destruct jv as [| | | | | |[|elem arr]|obj];
        try (revert Hx; unfold Request.from_json; simpl; thrown_error).
      - apply (exn_map_throws Request.from_json
                 (error_with_code ErrorCode.InvalidRequest)) in Hx; [exact Hx|].
        intros a y. apply request_from_json_throws.
      - destruct (Request.from_json (JObject obj)) eqn:Hr; simpl in Hx;
          [discriminate|].
        injection Hx as <-. now apply request_from_json_throws in Hr. }
    destruct Hinv as (e & -> & He). exists e. auto.
  - unfold Protocol.parse_request, Protocol.parse_text. rewrite Hparse.
    intros [= <-]. eexists. split; [reflexivity|]. now left.
Qed.

(** The only thing the [try] block of [process_request] throws is the
    [Error] of [parse_request]: the second [boost::json::parse] reads
    a text the first has accepted. *)
Lemma parse_and_classify_throws (request_body : string) x :
  parse_and_classify request_body = Throw x ->
  Protocol.parse_request request_body = Throw x.
Proof.
  unfold parse_and_classify.
  destruct (Protocol.parse_request request_body) as [requests|y] eqn:Hreq;
    simpl; [|now intros [= <-]].
  destruct (parse request_body) as [jv|what] eqn:Hparse.
  - destruct (1 <? length requests)%nat; simpl; discriminate.
  - unfold Protocol.parse_request, Protocol.parse_text in Hreq.
    rewrite Hparse in Hreq. discriminate.
Qed.

(** X18: served by a pool with at least one worker, [process_request]
    answers every request: it hands exactly one response to [do_write],
    never blocks and lets no exception escape, whatever the request, the
    registered procedures and the order of the tasks.  The status is 405
    exactly for a verb other than POST, 415 exactly for a POST whose
    content type does not mention [application/json], and 200 or 204 for
    everything else; 204 comes with an empty body.  The registered
    methods are the same afterwards. *)
Theorem process_request_always_answers sess req (schedule : list nat) w registry :
  1 <= pool_size registry ->
  exists res w' registry',
    process_request World sess req schedule w registry
    = Written res w' registry' /\
    methods_ World registry' = methods_ World registry /\
    match result res with
    | method_not_allowed => method req <> post
    | unsupported_media_type =>
        method req = post /\
        lacks_json_content_type (content_type req) = true
    | ok => reaches_engine req
    | no_content => reaches_engine req /\ res_body res = EmptyString
    end.
Proof.
  intros Hpool.
  destruct (is_post (method req)) eqn:Hpost.
  2:{ unfold process_request. rewrite Hpost. simpl.
      eexists _, _, _. repeat apply conj; try reflexivity.
      simpl. intros E. now rewrite E in Hpost. }
  assert (Hm : method req = post) by (destruct (method req); easy).
  destruct (lacks_json_content_type (content_type req)) eqn:Hjson.
  { unfold process_request. rewrite Hpost, Hjson. simpl.
    eexists _, _, _. split; [reflexivity|]. split; [reflexivity|].
    simpl. now split. }
  assert (Hengine : reaches_engine req) by now split.
  rewrite (process_request_engine World sess req schedule w registry Hengine).
  destruct (parse_and_classify (body req)) as [[requests is_batch]|x] eqn:Hpc.
  - destruct (invoke_batch_world World registry requests schedule w Hpool)
      as (responses & registry' & -> & Hmethods).
    eexists _, _, registry'. repeat apply conj; [reflexivity|exact Hmethods|].
    destruct is_batch; [exact Hengine|].
    destruct responses; simpl; [split; [exact Hengine|reflexivity]|exact Hengine].
  - apply parse_and_classify_throws, parse_request_throws in Hpc
      as (e & -> & _).
    eexists _, _, registry. repeat apply conj; try reflexivity. exact Hengine.
Qed.

(** X19: an exchange that is refused - the verb is not POST, the content
    type is not JSON, the body is not JSON or breaks the envelope rules -
    runs no procedure: the world is the one the session found, passed
    once through the logger, and the registry is untouched.  The answer
    is never a 204, and it keeps the connection open whatever the
    request asked for. *)
Theorem refused_exchange_runs_nothing sess req (schedule : list nat) w registry :
  ~ reaches_engine req \/ ~ succeeds (Protocol.parse_request (body req)) ->
  exists res message,
    process_request World sess req schedule w registry
    = Written res (log World sess message w) registry /\
    res_keep_alive res = true /\
    result res <> no_content.
Proof.
  intros Hrefused.
  destruct (is_post (method req)) eqn:Hpost.
  2:{ unfold process_request. rewrite Hpost. simpl.
      eexists _, _. repeat apply conj; try reflexivity. discriminate. }
  assert (Hm : method req = post) by (destruct (method req); easy).
  destruct (lacks_json_content_type (content_type req)) eqn:Hjson.
  { unfold process_request. rewrite Hpost, Hjson. simpl.
    eexists _, _. repeat apply conj; try reflexivity. discriminate. }
  assert (Hengine : reaches_engine req) by now split.
  destruct Hrefused as [Hno|Hno]; [contradiction|].
  rewrite (process_request_engine World sess req schedule w registry Hengine).
  destruct (parse_and_classify (body req)) as [[requests is_batch]|x] eqn:Hpc.
  - exfalso. apply Hno. unfold parse_and_classify in Hpc.
    destruct (Protocol.parse_request (body req)) as [rs|]; [now exists rs|].
    discriminate.
  - apply parse_and_classify_throws, parse_request_throws in Hpc
      as (e & -> & _).
    eexists _, _. repeat apply conj; try reflexivity. discriminate.
Qed.

(** X20: a POST whose body is not JSON is answered with status 200 and
    the serialized error response of code [ParseError] (-32700) and id
    null, its message being the parser's after a fixed prefix. *)
Theorem malformed_body_gets_parse_error sess req (schedule : list nat) w registry
    (what : string) :
  reaches_engine req ->
  parse (body req) = inr what ->
  exists e,
    e = Error.make ErrorCode.ParseError ("JSON 解析失败: " +:+ what) /\
    process_request World sess req schedule w registry
    = Written (mkResponse ok "application/json"
                 (Protocol.serialize_response (Response.failure e JNull)) true)
              (log World sess ("解析请求失败: " +:+ Error.what e) w) registry.
Proof.
  intros Hengine Hparse. eexists. split; [reflexivity|].
  rewrite (process_request_engine World sess req schedule w registry Hengine).
  unfold parse_and_classify, Protocol.parse_request, Protocol.parse_text.
  now rewrite Hparse.
Qed.

(** A batch of one task. *)
Lemma invoke_batch_single registry request w response w1 :
  1 <= pool_size registry ->
  Request.has_id request = true ->
  invoke World registry request w = (Ok response, w1) ->
  exists registry',
    invoke_batch World registry [request] [0%nat] w
    = Some ([response], w1, registry').
Proof.
  intros Hpool Hid Hinv. unfold invoke_batch.
  unfold pool_size in Hpool.
  destruct (get_batch_pool World registry) as [pool r'] eqn:Hget.
  simpl in Hpool.
  assert (Hm : methods_ World r' = methods_ World registry).
  { pose proof (get_batch_pool_methods World registry) as E.
    now rewrite Hget in E. }
  destruct (Z.eqb_spec (num_threads pool) 0) as [E|_]; [lia|].
  exists r'. simpl. unfold batch_task. rewrite Hid.
  rewrite (invoke_methods_only World r' registry request w Hm), Hinv.
  reflexivity.
Qed.

Lemma single_call_answer sess req w registry jv request response w1 :
  reaches_engine req ->
  1 <= pool_size registry ->
  parse (body req) = inl jv ->
  Protocol.parse_request (body req) = Ok [request] ->
  Request.has_id request = true ->
  invoke World registry request w = (Ok response, w1) ->
  exists registry',
    process_request World sess req [0%nat] w registry
    = Written (mkResponse ok "application/json"
                 (if is_array jv
                  then Protocol.serialize_batch_response [response]
                  else Protocol.serialize_response response)
                 (keep_alive req))
              w1 registry'.
Proof.
  intros Hengine Hpool Hparse Hreq Hid Hinv.
  destruct (invoke_batch_single registry request w response w1 Hpool Hid Hinv)
    as (registry' & Hbatch).
  exists registry'.
  rewrite (process_request_engine World sess req [0%nat] w registry Hengine).
  rewrite (parse_and_classify_ok _ jv [request] Hparse Hreq), Hbatch.
  now destruct (is_array jv).
Qed.

(** X21: a POST carrying one call - alone, or as a batch of one - is
    answered with status 200, the keep-alive of the request, and the
    response [invoke] gives for that call: serialized on its own when
    the body was an object, inside an array of one when the body was an
    array.  The world is the one [invoke] left. *)
Theorem single_call_exchange sess req w registry jv request response w1 :
  reaches_engine req ->
  1 <= pool_size registry ->
  parse (body req) = inl jv ->
  Protocol.parse_request (body req) = Ok [request] ->
  Request.has_id request = true ->
  invoke World registry request w = (Ok response, w1) ->
  exists registry',
    process_request World sess req [0%nat] w registry
    = Written (mkResponse ok "application/json"
                 (if is_array jv
                  then Protocol.serialize_batch_response [response]
                  else Protocol.serialize_response response)
                 (keep_alive req))
              w1 registry'.
Proof. apply single_call_answer. Qed.

End Exchange.

(** A GET is answered with 405, although its body is a valid call. *)
Lemma process_request_always_answers_witness :
  exists res w' registry',
    process_request nat quiet_session get_with_call [0%nat] 0%nat echo_registry
    = Written res w' registry' /\
    methods_ nat registry' = methods_ nat echo_registry /\
    match result res with
    | method_not_allowed => method get_with_call <> post
    | unsupported_media_type =>
        method get_with_call = post /\
        lacks_json_content_type (content_type get_with_call) = true
    | ok => reaches_engine get_with_call
    | no_content => reaches_engine get_with_call /\ res_body res = EmptyString
    end.
Proof.
  apply (process_request_always_answers nat quiet_session get_with_call
           [0%nat] 0%nat echo_registry).
  vm_compute. discriminate.
Defined.

(** A body cut short is refused; no body of a procedure has run. *)
Lemma refused_exchange_runs_nothing_witness :
  exists res message,
    process_request nat quiet_session truncated_post [0%nat] 0%nat echo_registry
    = Written res (log nat quiet_session message 0%nat) echo_registry /\
    res_keep_alive res = true /\
    result res <> no_content.
Proof.
  apply (refused_exchange_runs_nothing nat quiet_session truncated_post
           [0%nat] 0%nat echo_registry).
  right. intros [requests Hrequests]. vm_compute in Hrequests. discriminate.
Defined.

(** The same body, with the answer spelled out. *)
Lemma malformed_body_gets_parse_error_witness :
  exists what e,
    parse (body truncated_post) = inr what /\
    e = Error.make ErrorCode.ParseError ("JSON 解析失败: " +:+ what) /\
    process_request nat quiet_session truncated_post [0%nat] 0%nat echo_registry
    = Written (mkResponse ok "application/json"
                 (Protocol.serialize_response (Response.failure e JNull)) true)
              (log nat quiet_session ("解析请求失败: " +:+ Error.what e) 0%nat)
              echo_registry.
Proof.
  destruct (parse (body truncated_post)) as [jv|what] eqn:Hparse;
    [vm_compute in Hparse; discriminate|].
  destruct (malformed_body_gets_parse_error nat quiet_session truncated_post
              [0%nat] 0%nat echo_registry what) as (e & He & Hanswer).
  - split; reflexivity.
  - exact Hparse.
  - exists what, e. auto.
Defined.

(** [echo(5)] sent as a batch of one is answered with an array of one. *)
Lemma single_call_exchange_witness :
  exists registry',
    process_request nat quiet_session single_batch_post [0%nat] 0%nat
      echo_registry
    = Written (mkResponse ok "application/json"
                 (Protocol.serialize_batch_response
                    [Response.success (JInt64 5) (JInt64 10)])
                 false)
              1%nat registry'.
Proof.
  apply (single_call_exchange nat quiet_session single_batch_post 0%nat
           echo_registry
           (JArray [JObject [("jsonrpc", JString "2.0"); ("method", JString "echo");
                             ("params", JArray [JInt64 5]); ("id", JInt64 10)]])
           echo_call (Response.success (JInt64 5) (JInt64 10)) 1%nat).
  - split; reflexivity.
  - vm_compute. discriminate.
  - vm_compute. reflexivity.
  - vm_compute. reflexivity.
  - reflexivity.
  - reflexivity.
Defined.

(** ** The client, and the client in front of the server *)

Section ClientServer.

Context `{BoostJson}.
Variable World : Type.

Implicit Types (sess : ServerSession.t World) (registry : MethodRegistry.t World)
  (c : Client.t World) (w : World) (net : ClientSession.transport World).

Lemma call_request_valid c method args :
  c_str method = method -> valid_request (call_request c method args).
Proof. intros Hm. now repeat split. Qed.

(** What the loopback network brings back for one call. *)
Lemma loopback_single_call sess registry request w response w1 :
  valid_request request ->
  Request.has_id request = true ->
  1 <= pool_size registry ->
  invoke World registry request w = (Ok response, w1) ->
  faithful_on (JObject (Request.to_json request)) ->
  loopback sess [0%nat] registry
    (ClientSession.make_request (Protocol.serialize_request request)) w
  = (ClientSession.Received (Protocol.serialize_response response), w1).
Proof.
  intros Hvalid Hid Hpool Hinv Htext. unfold loopback.
  destruct (single_call_answer World sess
              (ClientSession.make_request (Protocol.serialize_request request))
              w registry (JObject (Request.to_json request)) request response w1)
    as (registry' & ->); try assumption; try reflexivity.
  - split; reflexivity.
  - change (Protocol.parse_request (serialize (JObject (Request.to_json request)))
            = Ok [request]).
    rewrite (parse_request_of_value _ _ Htext).
    now rewrite request_envelope_round_trip.
Qed.

Lemma remote_call_response (Result : TypeConverter.ty) method args sess registry
    c w response w1 :
  c_str method = method ->
  1 <= pool_size registry ->
  invoke World registry (call_request c method args) w = (Ok response, w1) ->
  plain_response response ->
  faithful_on (JObject (Request.to_json (call_request c method args))) ->
  faithful_on (JObject (Response.to_json response)) ->
  Client.call World Result method args (loopback sess [0%nat] registry) c w
  = (if Response.is_error response
     then Throw (JsonRpcError (Response.error_ response))
     else TypeConverter.from_json Result (Response.result_ response),
     (Client.generate_id World c).2, w1).
Proof.
  intros Hm Hpool Hinv Hplain Hreq Hresp.
  unfold Client.call, Client.generate_id. cbv zeta. cbn [fst snd].
  fold (call_request c method args).
  unfold ClientSession.call, ClientSession.send_request_sync.
  rewrite (loopback_single_call sess registry (call_request c method args)
             w response w1); try assumption; try reflexivity.
  2:{ now apply call_request_valid. }
  unfold Protocol.parse_response, Protocol.parse_text.
  unfold faithful_on in Hresp. unfold Protocol.serialize_response at 1.
  rewrite Hresp. cbn [exn_bind is_object negb].
  rewrite (plain_response_round_trip response Hplain).
  unfold ClientSession.log_and_rethrow.
  now destruct (Response.is_error response).
Qed.

(** X23: a call made through [Client::call] to a server that holds a
    pool with a worker comes back with the server's answer to that call:
    when [invoke] returns a success response its result is decoded to the
    type the caller asked for, and when it returns an error response -
    one without data - that very [Error] is thrown to the caller.  The
    world is the one the procedure left and the client has used up one
    id.  (The text layer is taken to give the two envelopes back, and
    the method name to hold no NUL byte.) *)
Theorem remote_call_delivers_response (Result : TypeConverter.ty) method args
    sess registry c w response w1 :
  c_str method = method ->
  1 <= pool_size registry ->
  invoke World registry (call_request c method args) w = (Ok response, w1) ->
  plain_response response ->
  faithful_on (JObject (Request.to_json (call_request c method args))) ->
  faithful_on (JObject (Response.to_json response)) ->
  Client.call World Result method args (loopback sess [0%nat] registry) c w
  = (if Response.is_error response
     then Throw (JsonRpcError (Response.error_ response))
     else TypeConverter.from_json Result (Response.result_ response),
     (Client.generate_id World c).2, w1).
Proof. apply remote_call_response. Qed.

Lemma decode_each_to_json (Ts : list TypeConverter.ty) :
  forall args : list TypeConverter.cvalue,
    Forall2 has_type Ts args ->
    TypeConverter.decode_each Ts (map TypeConverter.to_json args) = Ok args.
Proof.
  induction Ts as [|T Ts IH]; intros args Hargs;
    inversion Hargs as [|? c ? args' Hc Hrest]; subst; [reflexivity|].
  cbn [map TypeConverter.decode_each].
  now rewrite (from_json_to_json T c Hc), (IH args' Hrest).
Qed.

(** The server decodes what the client packed. *)
Lemma extract_packed_args (Ts : list TypeConverter.ty)
    (args : list TypeConverter.cvalue) :
  Forall2 has_type Ts args ->
  TypeConverter.extract_args Ts (Client.pack_params args) = Ok args.
Proof.
  intros Hargs. unfold Client.pack_params.
  destruct Ts as [|T Ts].
  - inversion Hargs. reflexivity.
  - unfold TypeConverter.extract_args, TypeConverter.extract_args_impl.
    rewrite length_map, <- (Forall2_length _ _ _ Hargs), Nat.eqb_refl.
    cbn [negb]. now apply decode_each_to_json.
Qed.

(** X24: a remote procedure call returns what the procedure returned.
    When the arguments have the parameter types of the procedure
    registered under the name, its body returns a value and that value
    has the type the caller asked for, [Client::call] returns that value;
    the world is the one the body left.  (The text layer is taken to
    give the two envelopes back, and the method name to hold no NUL
    byte.) *)
Theorem remote_call_returns_result (Result : TypeConverter.ty) method args sess
    registry c w (func : Func World) (v : TypeConverter.cvalue) w1 :
  c_str method = method ->
  1 <= pool_size registry ->
  methods_ World registry !! method = Some (MethodWrapperImpl World func) ->
  Forall2 has_type (args_tuple World func) args ->
  call_with_tuple World func args w = (Ok (Some v), w1) ->
  has_type Result v ->
  faithful_on (JObject (Request.to_json (call_request c method args))) ->
  faithful_on
    (JObject (Response.to_json
                (Response.success (TypeConverter.to_json v)
                   (JInt64 (Client.next_id_ World c))))) ->
  Client.call World Result method args (loopback sess [0%nat] registry) c w
  = (Ok v, (Client.generate_id World c).2, w1).
Proof.
  intros Hm Hpool Hl Hargs Hcall Hv Hreq Hresp.
  rewrite (remote_call_response Result method args sess registry c w
             (Response.success (TypeConverter.to_json v)
                (JInt64 (Client.next_id_ World c))) w1);
    try assumption.
  - cbn [Response.is_error Response.success Response.result_].
    now rewrite (from_json_to_json Result v Hv).
  - apply (invoke_result World registry (call_request c method args) func w
             args (Some v) w1); [exact Hl| |exact Hcall].
    now apply extract_packed_args.
  - left. now eexists _, _.
Qed.


(** X26: a batch sent through [Client::call_batch] to a server that
    holds a pool with a worker comes back as the list of responses
    [invoke_batch] produced for it, in order, and the world is the one
    the tasks left.  (The requests are valid and not none, the responses
    are successes or errors without data, and the text layer is taken to
    give the two arrays back.) *)
Theorem remote_batch_delivers_responses requests sess (schedule : list nat)
    registry c w responses w1 registry' :
  requests <> [] ->
  Forall valid_request requests ->
  invoke_batch World registry requests schedule w
    = Some (responses, w1, registry') ->
  Forall plain_response responses ->
  faithful_on (JArray (map (fun r => JObject (Request.to_json r)) requests)) ->
  faithful_on (JArray (map (fun r => JObject (Response.to_json r)) responses)) ->
  Client.call_batch World requests (loopback sess schedule registry) c w
  = (Ok responses, w1).
Proof.
  intros Hne Hvalid Hbatch Hplain Hreq Hresp.
  unfold Client.call_batch, ClientSession.call_batch,
    ClientSession.send_request_sync, loopback.
  rewrite (process_request_engine World sess _ schedule w registry)
    by (split; reflexivity).
  cbn [ServerSession.body ClientSession.make_request].
  rewrite (parse_and_classify_ok (Protocol.serialize_batch_request requests)
             (JArray (map (fun r => JObject (Request.to_json r)) requests))
             requests Hreq (batch_requests_parse requests Hne Hvalid Hreq)).
  rewrite Hbatch. cbn [is_array ServerSession.res_body ServerSession.make_response].
  rewrite (batch_responses_parse responses Hplain Hresp).
  reflexivity.
Qed.

(** X27: an empty batch cannot be sent: the server refuses the empty
    array with a single [InvalidRequest] object, which [call_batch] in
    turn refuses because it is not an array; the caller gets an
    [InvalidRequest] error, and no procedure has run. *)
Theorem remote_empty_batch_fails sess (schedule : list nat) registry c w :
  faithful_on (JArray []) ->
  faithful_on
    (JObject (Response.to_json
                (Response.failure
                   (Error.make ErrorCode.InvalidRequest "批量请求不能为空") JNull))) ->
  exists e message message',
    Error.code e = ErrorCode.InvalidRequest /\
    Client.call_batch World [] (loopback sess schedule registry) c w
    = (Throw (JsonRpcError e),
       ClientSession.log World (Client.create_session World c) message'
         (ServerSession.log World sess message w)).
Proof.
  intros Hreq Hresp.
  unfold Client.call_batch, ClientSession.call_batch,
    ClientSession.send_request_sync, loopback.
  rewrite (process_request_engine World sess _ schedule w registry)
    by (split; reflexivity).
  cbn [ServerSession.body ClientSession.make_request].
  unfold parse_and_classify.
  change (Protocol.serialize_batch_request []) with (serialize (JArray [])).
  rewrite (parse_request_of_value _ _ Hreq). cbn [exn_bind throw_error].
  cbn [ServerSession.res_body ServerSession.make_response].
  unfold Protocol.parse_batch_response, Protocol.parse_text.
  unfold Protocol.serialize_response at 1. rewrite Hresp. cbn [exn_bind].
  unfold ClientSession.log_and_rethrow, throw_error.
  eexists _, _, _. split; [|reflexivity]. reflexivity.
Qed.

(** X28: [Client::notify] on a server that holds a pool with a worker
    runs the procedure once and brings nothing back: the world is the
    one [invoke] leaves for the notification, whatever the procedure
    did - returned, failed or threw.  (The text layer is taken to give
    the request envelope back, and the method name to hold no NUL
    byte.) *)
Theorem remote_notify_runs_procedure method args sess registry c w :
  c_str method = method ->
  1 <= pool_size registry ->
  faithful_on
    (JObject (Request.to_json
                (Request.notification method (Client.pack_params args)))) ->
  Client.notify World method args (loopback sess [0%nat] registry) c w
  = (invoke World registry
       (Request.notification method (Client.pack_params args)) w).2.
Proof.
  intros Hm Hpool Hreq.
  unfold Client.notify, ClientSession.notify, ClientSession.send_request_sync,
    loopback.
  set (request := Request.notification method (Client.pack_params args)) in *.
  rewrite (process_request_engine World sess _ [0%nat] w registry)
    by (split; reflexivity).
  cbn [ServerSession.body ClientSession.make_request].
  assert (Hparse : Protocol.parse_request (Protocol.serialize_request request)
                   = Ok [request]).
  { unfold Protocol.serialize_request.
    rewrite (parse_request_of_value _ _ Hreq).
    rewrite request_envelope_round_trip; [reflexivity|].
    now repeat split. }
  rewrite (parse_and_classify_ok (Protocol.serialize_request request)
             (JObject (Request.to_json request)) [request] Hreq Hparse).
  destruct (invoke_batch_world World registry [request] [0%nat] w Hpool)
    as (responses & registry' & Hbatch & _).
  rewrite Hbatch. now destruct responses.
Qed.

(** X29: [async_call] hands exactly one response to the callback and
    lets nothing escape, whatever the network does: the parsed response
    when the answer can be read; an error response with id null carrying
    the parser's [Error] when it cannot; an [InternalError] response
    with id null and the text of the error code when a step of the
    exchange fails, after that step and the completion handler have each
    logged the failure. *)
Theorem async_call_always_calls_back (csess : ClientSession.t World)
    (anet : ClientSession.async_transport World) (request : Request.t)
    (callback : Response.t -> World -> World) w :
  exists response w',
    ClientSession.async_call World csess anet request callback w
    = (Ok tt, callback response w') /\
    match anet (ClientSession.make_request (Protocol.serialize_request request)) w
    with
    | (ClientSession.AsyncReceived response_body, w1) =>
        match Protocol.parse_response response_body with
        | Ok parsed => response = parsed /\ w' = w1
        | Throw x =>
            exists e,
              x = JsonRpcError e /\
              response = Response.failure e JNull /\
              w' = ClientSession.log World csess ("解析响应失败: " +:+ Error.what e) w1
        end
    | (ClientSession.AsyncFailed at_stage message, w1) =>
        response
        = Response.failure
            (Error.make ErrorCode.InternalError ("网络错误: " +:+ message)) JNull /\
        w' = ClientSession.log World csess
               (ClientSession.handler_log at_stage message)
               (ClientSession.log World csess
                  (ClientSession.step_log at_stage message) w1)
    end.
Proof.
  unfold ClientSession.async_call.
  destruct (anet (ClientSession.make_request
                    (Protocol.serialize_request request)) w)
    as [[response_body|at_stage message] w1].
  - destruct (Protocol.parse_response response_body) as [parsed|x] eqn:Hp.
    + now eexists _, _.
    + assert (He : exists e, x = JsonRpcError e).
      { revert Hp. unfold Protocol.parse_response, Protocol.parse_text.
        destruct (parse response_body) as [jv|what]; cbn [exn_bind];
          [|thrown_error].
        destruct (negb (is_object jv)); [thrown_error|].
        intros Hx. apply response_from_json_throws in Hx as (e & -> & _).
        now exists e. }
      destruct He as [e ->]. eexists _, _. split; [reflexivity|].
      now exists e.
  - now eexists _, _.
Qed.

End ClientServer.

Section ClientIds.

Variable World : Type.

Lemma after_ids_next_id (n : nat) (c : Client.t World) :
  1 <= Client.next_id_ World c ->
  Client.next_id_ World c + Z.of_nat n <= MachineInt.int64_max ->
  Client.next_id_ World (after_ids n c) = Client.next_id_ World c + Z.of_nat n.
Proof.
  unfold MachineInt.int64_max. intros Hlo.
  induction n as [|n IH]; intros Hhi.
  - simpl. lia.
  - change (after_ids (S n) c)
      with ((Client.generate_id World (after_ids n c)).2).
    cbn [Client.generate_id snd Client.next_id_].
    rewrite IH by lia. unfold MachineInt.to_int64.
    rewrite Z.mod_small by lia. lia.
Qed.

(** X22: the ids [generate_id] hands out are consecutive: the call
    after [n] earlier ones returns the integer [next_id_ + n], as long as
    that fits [int64_t].  A fresh client numbers its calls 1, 2, 3, ...,
    so no two of its first 2^63 - 1 calls share an id. *)
Theorem generate_id_sequence (n : nat) (c : Client.t World) :
  1 <= Client.next_id_ World c ->
  Client.next_id_ World c + Z.of_nat n <= MachineInt.int64_max ->
  (Client.generate_id World (after_ids n c)).1
  = JInt64 (Client.next_id_ World c + Z.of_nat n).
Proof.
  intros Hlo Hhi. cbn [Client.generate_id fst].
  now rewrite after_ids_next_id.
Qed.

End ClientIds.

(** The third id of a fresh client is 3. *)
Lemma generate_id_sequence_witness :
  (Client.generate_id nat (after_ids 2 fresh_client)).1 = JInt64 3.
Proof.
  apply (generate_id_sequence nat 2 fresh_client).
  - vm_compute. discriminate.
  - vm_compute. discriminate.
Defined.

(** A call of a method the server does not have: the server's
    [MethodNotFound] error is thrown to the caller. *)
Lemma remote_call_delivers_response_witness :
  Client.call nat TypeConverter.TInt "nope" [] (echo_server [0%nat])
    fresh_client 0%nat
  = (Throw (JsonRpcError
              (Error.make ErrorCode.MethodNotFound ("方法不存在: " +:+ "nope"))),
     (Client.generate_id nat fresh_client).2, 0%nat).
Proof.
  apply (remote_call_delivers_response nat TypeConverter.TInt "nope" []
           quiet_session echo_registry fresh_client 0%nat
           (Response.failure
              (Error.make ErrorCode.MethodNotFound ("方法不存在: " +:+ "nope"))
              (JInt64 1))
           0%nat).
  - reflexivity.
  - vm_compute. discriminate.
  - reflexivity.
  - right. eexists _, _. split; [reflexivity|].
    repeat split; first [reflexivity | vm_compute; discriminate].
  - vm_compute. reflexivity.
  - vm_compute. reflexivity.
Defined.

(** [echo(5)] called from the client returns 5. *)
Lemma remote_call_returns_result_witness :
  Client.call nat TypeConverter.TInt "echo" [TypeConverter.VInt 5]
    (echo_server [0%nat]) fresh_client 0%nat
  = (Ok (TypeConverter.VInt 5), (Client.generate_id nat fresh_client).2, 1%nat).
Proof.
  apply (remote_call_returns_result nat TypeConverter.TInt "echo"
           [TypeConverter.VInt 5] quiet_session echo_registry fresh_client
           0%nat echo (TypeConverter.VInt 5) 1%nat).
  - reflexivity.
  - vm_compute. discriminate.
  - apply lookup_insert_eq.
  - repeat constructor; vm_compute; discriminate.
  - reflexivity.
  - split; vm_compute; discriminate.
  - vm_compute. reflexivity.
  - vm_compute. reflexivity.
Defined.

(** [echo_batch] sent by the client, the tasks completing in the order
    2, 0, 1: the two calls are answered in the order they were sent. *)
Lemma remote_batch_delivers_responses_witness :
  Client.call_batch nat echo_batch (echo_server [2; 0; 1]%nat) fresh_client 0%nat
  = (Ok [Response.success (JInt64 5) (JInt64 10);
         Response.success (JInt64 9) (JInt64 11)], 3%nat).
Proof.
  apply (remote_batch_delivers_responses nat echo_batch quiet_session
           [2; 0; 1]%nat echo_registry fresh_client 0%nat
           [Response.success (JInt64 5) (JInt64 10);
            Response.success (JInt64 9) (JInt64 11)]
           3%nat echo_registry).
  - discriminate.
  - repeat constructor.
  - reflexivity.
  - constructor; [|constructor; [|constructor]]; left; now eexists _, _.
  - vm_compute. reflexivity.
  - vm_compute. reflexivity.
Defined.

(** The empty batch against the echo server. *)
Lemma remote_empty_batch_fails_witness :
  exists e message message',
    Error.code e = ErrorCode.InvalidRequest /\
    Client.call_batch nat [] (echo_server []) fresh_client 0%nat
    = (Throw (JsonRpcError e),
       ClientSession.log nat (Client.create_session nat fresh_client) message'
         (ServerSession.log nat quiet_session message 0%nat)).
Proof.
  apply (remote_empty_batch_fails nat quiet_session [] echo_registry
           fresh_client 0%nat).
  - vm_compute. reflexivity.
  - vm_compute. reflexivity.
Defined.

(** A notification of [echo]: one body has run. *)
Lemma remote_notify_runs_procedure_witness :
  Client.notify nat "echo" [TypeConverter.VInt 7] (echo_server [0%nat])
    fresh_client 0%nat
  = 1%nat.
Proof.
  apply (remote_notify_runs_procedure nat "echo" [TypeConverter.VInt 7]
           quiet_session echo_registry fresh_client 0%nat).
  - reflexivity.
  - vm_compute. discriminate.
  - vm_compute. reflexivity.
Defined.

(** ** What the wire keeps of a response *)

(** X30: [Response::from_json] accepts every envelope [to_json]
    produces, and what it gives back differs from the original in the
    error only: the kind, the id, the result and the data are kept, the
    code is narrowed to [int], and the message is cut at its first NUL
    byte when the error has no data and lost when it has. *)
Theorem response_envelope_always_parses (resp : Response.t) :
  exists parsed,
    Response.from_json (JObject (Response.to_json resp)) = Ok parsed /\
    Response.is_error parsed = Response.is_error resp /\
    Response.id parsed = Response.id resp /\
    if Response.is_error resp then
      Response.result_ parsed = JNull /\
      Error.code (Response.error_ parsed)
      = MachineInt.to_int (Error.code (Response.error_ resp)) /\
      Error.data (Response.error_ parsed) = Error.data (Response.error_ resp) /\
      Error.message (Response.error_ parsed)
      = (if is_null (Error.data (Response.error_ resp))
         then c_str (Error.message (Response.error_ resp))
         else EmptyString)
    else
      Response.result_ parsed = Response.result_ resp.
Proof.
  destruct resp as [[|] res [c m d] i]; unfold Response.from_json;
    [destruct d|]; simpl; eexists; repeat apply conj; reflexivity.
Qed.

